(** * Breakout for the GameTank: the per-frame simulation

    A shallow embedding of [breakout.cpp] (with the constants of
    [gametank.h]): the global game variables become one record that is
    passed from function to function, the 8- and 16-bit variables are
    integers with their wrap-around written out, and the brick array is a
    list that is read and updated by index. *)

From stdpp Require Import base numbers list.
From Stdlib Require Import ZArith Lia.

Local Open Scope Z_scope.

(** ** Machine integers

    [uint8_t], [uint16_t] and [int8_t] values are mathematical integers;
    every store into such a variable goes through the matching
    truncation.  The operands of an expression are promoted to [int]
    first, so the truncation happens at the store, not inside the
    expression. *)

Definition u8 (z : Z) : Z := z mod 256.
Definition u16 (z : Z) : Z := z mod 65536.
Definition i8 (z : Z) : Z := (z + 128) mod 256 - 128.

(** ** Constants of [gametank.h] and [breakout.cpp] *)

Definition BTN_RIGHT : Z := 0x01.
Definition BTN_LEFT : Z := 0x02.
Definition BTN_A : Z := 0x10.

Definition HUE_RED : Z := 0x60.
Definition SAT_FULL : Z := 0x18.

Definition SCREEN_WIDTH : Z := 128.
Definition SCREEN_HEIGHT : Z := 128.

Definition PADDLE_WIDTH : Z := 24.
Definition PADDLE_HEIGHT : Z := 4.
Definition PADDLE_Y : Z := 115.
Definition PADDLE_SPEED : Z := 2.

Definition BALL_SIZE : Z := 3.
Definition BALL_SPEED_X : Z := 2.
Definition BALL_SPEED_Y : Z := 2.

Definition BRICK_WIDTH : Z := 15.
Definition BRICK_HEIGHT : Z := 6.
Definition BRICK_ROWS : Z := 6.
Definition BRICK_COLS : Z := 8.
Definition BRICK_START_X : Z := 4.
Definition BRICK_START_Y : Z := 10.
Definition BRICK_SPACING_X : Z := 16.
Definition BRICK_SPACING_Y : Z := 7.

Definition TOTAL_BRICKS : Z := BRICK_ROWS * BRICK_COLS.

(** ** The data model *)

(** [struct Brick]: four bytes per brick. *)
Module Brick.

Record t : Type := mk { x : Z; y : Z; color : Z; active : Z }.

Definition zero : t := mk 0 0 0 0.

Definition set_active (v : Z) (b : t) : t := mk (x b) (y b) (color b) v.

End Brick.

(** The global variables of the game.  The video and DMA mirrors and the
    vsync flag belong to the hardware layer and are left out. *)
Record Game : Type := mkGame {
  frame_count : Z;
  paddle_x : Z;
  ball_x : Z;
  ball_y : Z;
  ball_vx : Z;
  ball_vy : Z;
  ball_state : Z;
  input_buffer : Z;
  prev_input : Z;
  score : Z;
  lives : Z;
  bricks_left : Z;
  bricks : list Brick.t
}.

(** Assignments to one global. *)
Definition set_frame_count (v : Z) (s : Game) : Game :=
  mkGame v (paddle_x s) (ball_x s) (ball_y s) (ball_vx s) (ball_vy s)
    (ball_state s) (input_buffer s) (prev_input s) (score s) (lives s)
    (bricks_left s) (bricks s).
Definition set_paddle_x (v : Z) (s : Game) : Game :=
  mkGame (frame_count s) v (ball_x s) (ball_y s) (ball_vx s) (ball_vy s)
    (ball_state s) (input_buffer s) (prev_input s) (score s) (lives s)
    (bricks_left s) (bricks s).
Definition set_ball_x (v : Z) (s : Game) : Game :=
  mkGame (frame_count s) (paddle_x s) v (ball_y s) (ball_vx s) (ball_vy s)
    (ball_state s) (input_buffer s) (prev_input s) (score s) (lives s)
    (bricks_left s) (bricks s).
Definition set_ball_y (v : Z) (s : Game) : Game :=
  mkGame (frame_count s) (paddle_x s) (ball_x s) v (ball_vx s) (ball_vy s)
    (ball_state s) (input_buffer s) (prev_input s) (score s) (lives s)
    (bricks_left s) (bricks s).
Definition set_ball_vx (v : Z) (s : Game) : Game :=
  mkGame (frame_count s) (paddle_x s) (ball_x s) (ball_y s) v (ball_vy s)
    (ball_state s) (input_buffer s) (prev_input s) (score s) (lives s)
    (bricks_left s) (bricks s).
Definition set_ball_vy (v : Z) (s : Game) : Game :=
  mkGame (frame_count s) (paddle_x s) (ball_x s) (ball_y s) (ball_vx s) v
    (ball_state s) (input_buffer s) (prev_input s) (score s) (lives s)
    (bricks_left s) (bricks s).
Definition set_ball_state (v : Z) (s : Game) : Game :=
  mkGame (frame_count s) (paddle_x s) (ball_x s) (ball_y s) (ball_vx s)
    (ball_vy s) v (input_buffer s) (prev_input s) (score s) (lives s)
    (bricks_left s) (bricks s).
Definition set_input_buffer (v : Z) (s : Game) : Game :=
  mkGame (frame_count s) (paddle_x s) (ball_x s) (ball_y s) (ball_vx s)
    (ball_vy s) (ball_state s) v (prev_input s) (score s) (lives s)
    (bricks_left s) (bricks s).
Definition set_prev_input (v : Z) (s : Game) : Game :=
  mkGame (frame_count s) (paddle_x s) (ball_x s) (ball_y s) (ball_vx s)
    (ball_vy s) (ball_state s) (input_buffer s) v (score s) (lives s)
    (bricks_left s) (bricks s).
Definition set_score (v : Z) (s : Game) : Game :=
  mkGame (frame_count s) (paddle_x s) (ball_x s) (ball_y s) (ball_vx s)
    (ball_vy s) (ball_state s) (input_buffer s) (prev_input s) v (lives s)
    (bricks_left s) (bricks s).
Definition set_lives (v : Z) (s : Game) : Game :=
  mkGame (frame_count s) (paddle_x s) (ball_x s) (ball_y s) (ball_vx s)
    (ball_vy s) (ball_state s) (input_buffer s) (prev_input s) (score s) v
    (bricks_left s) (bricks s).
Definition set_bricks_left (v : Z) (s : Game) : Game :=
  mkGame (frame_count s) (paddle_x s) (ball_x s) (ball_y s) (ball_vx s)
    (ball_vy s) (ball_state s) (input_buffer s) (prev_input s) (score s)
    (lives s) v (bricks s).
Definition set_bricks (v : list Brick.t) (s : Game) : Game :=
  mkGame (frame_count s) (paddle_x s) (ball_x s) (ball_y s) (ball_vx s)
    (ball_vy s) (ball_state s) (input_buffer s) (prev_input s) (score s)
    (lives s) (bricks_left s) v.

(** The globals as the C runtime leaves them before [main]: all zero, the
    brick array with its [TOTAL_BRICKS] entries. *)
Definition boot : Game :=
  mkGame 0 0 0 0 0 0 0 0 0 0 0 0 (replicate (Z.to_nat TOTAL_BRICKS) Brick.zero).

(** ** Initialisation *)

(** One round of the loop of [init_bricks]. *)
Definition init_brick (idx : Z) (s : Game) : Game :=
  let row := u8 (idx ÷ 8) in
  let col := u8 (Z.land idx 0x07) in
  let b := Brick.mk (u8 (Z.shiftl col 4 + BRICK_START_X))
                    (u8 (row * 7 + BRICK_START_Y))
                    (u8 (row + 1))
                    1 in
  set_bricks_left (u8 (bricks_left s + 1))
    (set_bricks (<[Z.to_nat idx := b]> (bricks s)) s).

(** [for (idx = 0; idx < TOTAL_BRICKS; idx++)], [fuel] bounding the rounds. *)
Fixpoint init_bricks_loop (fuel : nat) (idx : Z) (s : Game) : Game :=
  match fuel with
  | O => s
  | S fuel' =>
      if idx <? TOTAL_BRICKS
      then init_bricks_loop fuel' (u8 (idx + 1)) (init_brick idx s)
      else s
  end.

Definition init_bricks (s : Game) : Game :=
  init_bricks_loop 256 0 (set_bricks_left 0 s).

Definition init_game (s : Game) : Game :=
  let s := set_paddle_x (u8 ((SCREEN_WIDTH - PADDLE_WIDTH) ÷ 2)) s in
  let s := set_ball_state 0 s in
  let s := set_ball_vx (i8 0) s in
  let s := set_ball_vy (i8 0) s in
  let s := set_ball_x (u8 ((SCREEN_WIDTH - BALL_SIZE) ÷ 2)) s in
  let s := set_ball_y (u8 (PADDLE_Y - BALL_SIZE - 1)) s in
  let s := set_score (u16 0) s in
  let s := set_lives 3 s in
  let s := set_frame_count 0 s in
  let s := set_input_buffer 0 s in
  let s := set_prev_input 0 s in
  init_bricks s.

(** ** Input *)

(** [read_input]; [pad] is the byte the second read of [GAMEPAD1] returns
    (the buttons are active-low). *)
Definition read_input (pad : Z) (s : Game) : Game :=
  let s := set_prev_input (input_buffer s) s in
  set_input_buffer (u8 (Z.lxor pad 0xFF)) s.

(** A C condition [v & mask]. *)
Definition held (mask v : Z) : bool := negb (Z.land v mask =? 0).

(** ** The paddle *)

Definition update_paddle (s : Game) : Game :=
  let s :=
    if held BTN_RIGHT (input_buffer s) then
      let new_x := u8 (paddle_x s + PADDLE_SPEED) in
      if new_x <? SCREEN_WIDTH - PADDLE_WIDTH then set_paddle_x new_x s else s
    else s in
  if held BTN_LEFT (input_buffer s) then
    if PADDLE_SPEED <=? paddle_x s
    then set_paddle_x (u8 (paddle_x s - PADDLE_SPEED)) s
    else s
  else s.

(** ** The ball

    [update_ball] has two early [return]s and a [return] behind the brick
    pre-filter.  Its parts are therefore written as steps that either
    return from the function or hand the state to the next part. *)

Inductive Flow : Type :=
  | Return (s : Game)
  | Next (s : Game).

Definition and_then (f : Flow) (k : Game → Flow) : Flow :=
  match f with
  | Return s => Return s
  | Next s => k s
  end.

Definition outcome (f : Flow) : Game :=
  match f with
  | Return s => s
  | Next s => s
  end.

Notation "f >>> k" := (and_then f k) (at level 61, left associativity).

(** The ball rests on the paddle: follow it, launch on a fresh press of A. *)
Definition ball_on_paddle (s : Game) : Flow :=
  if ball_state s =? 0 then
    let s := set_ball_x (u8 (paddle_x s + (PADDLE_WIDTH - BALL_SIZE) ÷ 2)) s in
    if held BTN_A (input_buffer s) && negb (held BTN_A (prev_input s)) then
      let s := set_ball_state 1 s in
      let s := set_ball_vx (i8 BALL_SPEED_X) s in
      Return (set_ball_vy (i8 (- BALL_SPEED_Y)) s)
    else Return s
  else Next s.

(** [ball_x += ball_vx; ball_y += ball_vy;] *)
Definition ball_move (s : Game) : Game :=
  let s := set_ball_x (u8 (ball_x s + ball_vx s)) s in
  set_ball_y (u8 (ball_y s + ball_vy s)) s.

(** Which branch of the side-wall test is taken. *)
Inductive SideHit : Type := HitLeft | HitRight | HitNone.

Definition side_hit (s : Game) : SideHit :=
  if ball_x s =? 0 then HitLeft
  else if SCREEN_WIDTH <=? ball_x s + BALL_SIZE then HitRight
  else HitNone.

Definition ball_side_walls (s : Game) : Game :=
  match side_hit s with
  | HitLeft => set_ball_x 1 (set_ball_vx (i8 (- ball_vx s)) s)
  | HitRight =>
      set_ball_x (u8 (SCREEN_WIDTH - BALL_SIZE - 1))
        (set_ball_vx (i8 (- ball_vx s)) s)
  | HitNone => s
  end.

(** The assignments of the bottom branch: the ball is lost. *)
Definition ball_lost (s : Game) : Game :=
  let s := set_lives (u8 (lives s - 1)) s in
  let s := set_ball_state 0 s in
  let s := set_ball_x (u8 ((SCREEN_WIDTH - BALL_SIZE) ÷ 2)) s in
  let s := set_ball_y (u8 (PADDLE_Y - BALL_SIZE - 1)) s in
  let s := set_ball_vx (i8 0) s in
  set_ball_vy (i8 0) s.

(** Top wall, else bottom. *)
Definition ball_top_bottom (s : Game) : Flow :=
  if ball_y s <? 8 then
    Next (set_ball_y 8 (set_ball_vy (i8 (- ball_vy s)) s))
  else if SCREEN_HEIGHT - 2 <=? ball_y s then Return (ball_lost s)
  else Next s.

(** The three nested tests of the paddle collision. *)
Definition in_paddle_band (s : Game) : bool :=
  (PADDLE_Y - BALL_SIZE <=? ball_y s) && (ball_y s <? PADDLE_Y + PADDLE_HEIGHT).

Definition over_paddle (s : Game) : bool :=
  (paddle_x s <? ball_x s + BALL_SIZE) && (ball_x s <? paddle_x s + PADDLE_WIDTH).

Definition paddle_bounce (s : Game) : Game :=
  let s := set_ball_y (u8 (PADDLE_Y - BALL_SIZE - 1)) s in
  let s := if 0 <? ball_vy s then set_ball_vy (i8 (- ball_vy s)) s else s in
  if ball_vx s =? 0 then set_ball_vx (i8 BALL_SPEED_X) s else s.

Definition ball_paddle (s : Game) : Game :=
  if in_paddle_band s then
    if over_paddle s then
      if ball_y s <? PADDLE_Y then paddle_bounce s else s
    else s
  else s.

(** The pre-filter in front of the brick loop. *)
Definition outside_brick_area (s : Game) : bool :=
  (ball_y s <? BRICK_START_Y)
  || (BRICK_START_Y + BRICK_ROWS * BRICK_SPACING_Y + BRICK_HEIGHT <=? ball_y s).

Definition ball_brick_area (s : Game) : Flow :=
  if outside_brick_area s then Return s else Next s.

(** The two [continue] tests of the loop body. *)
Definition x_apart (s : Game) (b : Brick.t) : bool :=
  (ball_x s + BALL_SIZE <=? Brick.x b) || (Brick.x b + BRICK_WIDTH <=? ball_x s).

Definition y_apart (s : Game) (b : Brick.t) : bool :=
  (ball_y s + BALL_SIZE <=? Brick.y b) || (Brick.y b + BRICK_HEIGHT <=? ball_y s).

(** The loop body behind the tests: brick [idx] is hit. *)
Definition brick_hit (idx : nat) (b : Brick.t) (s : Game) : Game :=
  let s := set_bricks (<[idx := Brick.set_active 0 b]> (bricks s)) s in
  let s := set_ball_vy (i8 (- ball_vy s)) s in
  let s := set_score (u16 (score s + 1)) s in
  set_bricks_left (u8 (bricks_left s - 1)) s.

(** [for (idx = 0; idx < TOTAL_BRICKS; idx++)] with its [continue]s and
    its [break]; [fuel] counts the rounds that are left.  The array has
    [TOTAL_BRICKS] entries, so the lookup succeeds in every round. *)
Fixpoint brick_loop (fuel : nat) (idx : nat) (s : Game) : Game :=
  match fuel with
  | O => s
  | S fuel' =>
      match bricks s !! idx with
      | None => s
      | Some b =>
          if Brick.active b =? 0 then brick_loop fuel' (S idx) s
          else if x_apart s b then brick_loop fuel' (S idx) s
          else if y_apart s b then brick_loop fuel' (S idx) s
          else brick_hit idx b s
      end
  end.

Definition ball_bricks (s : Game) : Game :=
  brick_loop (Z.to_nat TOTAL_BRICKS) 0 s.

(** The state in which the ball enters the paddle test, if it does. *)
Definition ball_flight (s : Game) : Flow :=
  ball_on_paddle s >>> (λ s, ball_top_bottom (ball_side_walls (ball_move s))).

Definition update_ball (s : Game) : Game :=
  outcome (ball_flight s
           >>> (λ s, ball_brick_area (ball_paddle s))
           >>> (λ s, Next (ball_bricks s))).

(** ** The frame loop *)

Definition update_game (s : Game) : Game :=
  update_ball (update_paddle s).

(** One round of the loop of [main], for the pad byte read in it. *)
Definition frame (pad : Z) (s : Game) : Game :=
  let s := update_game (read_input pad s) in
  set_frame_count (u8 (frame_count s + 1)) s.

Definition start : Game := init_game boot.

(** The state after the frames that read the bytes [pads], in order. *)
Definition run (pads : list Z) : Game :=
  foldl (λ s pad, frame pad s) start pads.

(** The states the frame loop can be in at the top of a round. *)
Inductive reachable : Game → Prop :=
  | reach_start : reachable start
  | reach_frame pad s : 0 ≤ pad < 256 → reachable s → reachable (frame pad s).

(** ** The heads-up display *)

(** A call of [draw_rect]. *)
Record Rect : Type := mkRect { rx : Z; ry : Z; rw : Z; rh : Z; rcolor : Z }.

(** [for (i = 0; i < lives; i++)] of [draw_hud]. *)
Fixpoint draw_hud_loop (fuel : nat) (i x_pos : Z) (s : Game) : list Rect :=
  match fuel with
  | O => []
  | S fuel' =>
      if i <? lives s
      then mkRect x_pos 2 3 3 (Z.lor (Z.lor HUE_RED SAT_FULL) 5)
           :: draw_hud_loop fuel' (u8 (i + 1)) (u8 (x_pos + 5)) s
      else []
  end.

Definition draw_hud (s : Game) : list Rect := draw_hud_loop 256 0 2 s.

(** * Vocabulary of the properties *)

(** The buttons a pad byte stands for. *)
Definition buttons (pad : Z) : Z := u8 (Z.lxor pad 0xFF).

(** The state after the frames for [pads], from any state. *)
Definition run_from (s : Game) (pads : list Z) : Game :=
  foldl (λ s pad, frame pad s) s pads.

Definition paddle_in_bounds (s : Game) : Prop :=
  0 ≤ paddle_x s ≤ SCREEN_WIDTH - PADDLE_WIDTH.

(** What [update_ball] never writes. *)
Definition same_controls (s s' : Game) : Prop :=
  paddle_x s' = paddle_x s ∧ input_buffer s' = input_buffer s
  ∧ prev_input s' = prev_input s ∧ frame_count s' = frame_count s.

(** RIGHT is held and LEFT is not. *)
Definition right_only (pad : Z) : Prop :=
  held BTN_RIGHT (buttons pad) = true ∧ held BTN_LEFT (buttons pad) = false.

(** Where a paddle that starts at [x0] stops under RIGHT: a step is taken
    only while it ends strictly left of [SCREEN_WIDTH - PADDLE_WIDTH]. *)
Definition paddle_rest (x0 : Z) : Z :=
  if x0 <=? SCREEN_WIDTH - PADDLE_WIDTH - PADDLE_SPEED - 1
  then SCREEN_WIDTH - PADDLE_WIDTH - PADDLE_SPEED + x0 mod 2
  else x0.


(** The launch button is down in the pad byte. *)
Definition a_pressed (pad : Z) : Prop := held BTN_A (buttons pad) = true.

(** The number of frames, among those for [pads], in which the ball goes
    from resting on the paddle to being in flight. *)
Fixpoint launches (s : Game) (pads : list Z) : nat :=
  match pads with
  | [] => O
  | pad :: pads' =>
      let s' := frame pad s in
      let launched := (ball_state s =? 0) && negb (ball_state s' =? 0) in
      ((if launched then 1 else 0) + launches s' pads')%nat
  end.

(** Pad bytes, each held for a number of frames. *)
Definition hold (pad : Z) (n : nat) : Z * nat := (pad, n).

Definition held_for (l : list (Z * nat)) : list Z :=
  concat (map (λ '(pad, n), replicate n pad) l).

(** What [update_ball] works on in the frame for [pad]: the state after
    [read_input] and [update_paddle]. *)
Definition before_ball (pad : Z) (s : Game) : Game :=
  update_paddle (read_input pad s).

(** Four launches with the paddle parked to the right: the last frame
    loses the fourth ball. *)
Definition four_losses : list Z :=
  held_for [hold 0xFE 8; hold 0xEF 1; hold 0xFF 70; hold 0xEF 1; hold 0xFF 82;
            hold 0xEF 1; hold 0xFF 90; hold 0xEF 1; hold 0xFF 89].

(** A launch from the left of the centre; 69 frames later the ball comes
    down beside the paddle. *)
Definition low_ball : list Z :=
  held_for [hold 0xFD 4; hold 0xEF 1; hold 0xFF 64].

(** The states [update_ball] gets in the frames that lose the first and
    the fourth ball of [four_losses]. *)
Definition first_loss : Game := before_ball 0xFF (run (take 78 four_losses)).
Definition fourth_loss : Game := before_ball 0xFF (run (take 343 four_losses)).

(** What [update_ball] gets in the frame after [low_ball]. *)
Definition beside_paddle : Game := before_ball 0xFF (run low_ball).

(** The tests under which the paddle collision moves the ball. *)
Definition paddle_catches (s : Game) : Prop :=
  PADDLE_Y - BALL_SIZE ≤ ball_y s < PADDLE_Y
  ∧ paddle_x s < ball_x s + BALL_SIZE ∧ ball_x s < paddle_x s + PADDLE_WIDTH.

(** *** Bricks *)

(** The number of bricks whose active flag is set. *)
Definition count_active (l : list Brick.t) : nat :=
  length (filter (λ b, Brick.active b ≠ 0) l).

(** [bricks_left] counts the active bricks. *)
Definition counter_exact (s : Game) : Prop :=
  bricks_left s = Z.of_nat (count_active (bricks s)).

(** The array keeps its [TOTAL_BRICKS] entries. *)
Definition array_intact (s : Game) : Prop :=
  length (bricks s) = Z.to_nat TOTAL_BRICKS.

(** Two rectangles overlap when each one starts strictly before the other
    one ends, on both axes: here the ball and a brick. *)
Definition overlaps (s : Game) (b : Brick.t) : Prop :=
  (ball_x s < Brick.x b + BRICK_WIDTH ∧ Brick.x b < ball_x s + BALL_SIZE)
  ∧ (ball_y s < Brick.y b + BRICK_HEIGHT ∧ Brick.y b < ball_y s + BALL_SIZE).

(** An active brick that overlaps the ball. *)
Definition collides (s : Game) (b : Brick.t) : Prop :=
  Brick.active b ≠ 0 ∧ overlaps s b.

(** Brick [i] is the first one in array order that collides. *)
Definition first_collision (s : Game) (i : nat) (b : Brick.t) : Prop :=
  bricks s !! i = Some b ∧ collides s b
  ∧ ∀ j b', (j < i)%nat → bricks s !! j = Some b' → ¬ collides s b'.

(** The state in which [update_ball] enters the brick loop, if it does:
    the ball is in flight, was not lost, and passed the pre-filter. *)
Definition brick_loop_entry (s : Game) : option Game :=
  match ball_flight s >>> (λ s, ball_brick_area (ball_paddle s)) with
  | Next m => Some m
  | Return _ => None
  end.

(** The brick array, its counter and the score are the same in two
    states. *)
Definition same_bricks (s s' : Game) : Prop :=
  bricks s' = bricks s ∧ bricks_left s' = bricks_left s ∧ score s' = score s.

(** *** What holds of every state of a game *)

(** A ball in flight: it moves two pixels per frame on each axis, stays
    between the side walls and within [ylo, yhi] vertically, and is on an
    even column whenever it moves left. *)
Definition ball_ok (ylo yhi : Z) (s : Game) : Prop :=
  (ball_vx s = 2 ∨ (ball_vx s = -2 ∧ ball_x s mod 2 = 0))
  ∧ (ball_vy s = 2 ∨ ball_vy s = -2)
  ∧ 1 ≤ ball_x s ≤ 124
  ∧ ylo ≤ ball_y s ≤ yhi.

Definition ball_inv (s : Game) : Prop :=
  (ball_state s = 0 ∧ ball_y s = 111)
  ∨ (ball_state s = 1 ∧ ball_ok 8 125 s).

(** The paddle only ever stands on even columns left of 104. *)
Definition paddle_even (s : Game) : Prop :=
  0 ≤ paddle_x s ≤ 102 ∧ paddle_x s mod 2 = 0.

(** The part of the state the ball's flight does not touch, and what
    holds of it. *)
Definition same_table (s s' : Game) : Prop :=
  same_bricks s s' ∧ lives s' = lives s ∧ same_controls s s'.

Definition table_inv (s : Game) : Prop :=
  array_intact s ∧ counter_exact s
  ∧ score s + bricks_left s = 48
  ∧ 0 ≤ lives s < 256
  ∧ paddle_even s.

Definition play_inv (s : Game) : Prop := table_inv s ∧ ball_inv s.

(** The pad bytes are bytes. *)
Definition pad_bytes (pads : list Z) : Prop :=
  Forall (λ pad, 0 ≤ pad < 256) pads.

(** *** Runs used as examples *)

(** A launch from the left; the frame after these 36 finds the ball over
    the seam between bricks 46 and 47. *)
Definition seam_run : list Z :=
  held_for [hold 0xFD 5; hold 0xEF 1; hold 0xFF 30].

(** A game that brings the ball, moving left, to column 2. *)
Definition left_wall_run : list Z :=
  held_for [hold 0xFD 2; hold 0xEF 1; hold 0xFF 37; hold 0xFE 14;
            hold 0xFD 12; hold 0xFF 32].

(** A game of 602 frames that clears a way to the top row: in the next
    frame the ball, at y = 9, overlaps the active brick 5. *)
Definition prefilter_run : list Z :=
  held_for [hold 0xFD 2; hold 0xEF 1; hold 0xFF 37; hold 0xFE 14;
            hold 0xFD 12; hold 0xFF 37; hold 0xFD 13; hold 0xFE 13;
            hold 0xFF 49; hold 0xFE 7; hold 0xFD 19; hold 0xFF 70;
            hold 0xFE 19; hold 0xEF 1; hold 0xFF 244; hold 0xFD 13;
            hold 0xEF 1; hold 0xFF 50].

Definition over_seam : Game := before_ball 0xFF (run seam_run).
Definition at_left_wall : Game := before_ball 0xFF (run left_wall_run).
Definition under_top_row : Game := before_ball 0xFF (run prefilter_run).

(** [update_ball] without the pre-filter: the brick loop runs in every
    frame in which the ball is in flight and not lost. *)
Definition update_ball_scan_always (s : Game) : Game :=
  outcome (ball_flight s >>> (λ s, Next (ball_bricks (ball_paddle s)))).

(** * The rest of the program *)

(** ** Drawing *)

Definition HUE_GREEN : Z := 0x00.
Definition HUE_YELLOW : Z := 0x20.
Definition HUE_ORANGE : Z := 0x40.
Definition HUE_BLUE : Z := 0xC0.
Definition HUE_CYAN : Z := 0xE0.

(** The [switch] of [get_brick_color]. *)
Definition get_brick_color (color_index : Z) : Z :=
  if color_index =? 1 then u8 (Z.lor (Z.lor HUE_RED SAT_FULL) 4)
  else if color_index =? 2 then u8 (Z.lor (Z.lor HUE_ORANGE SAT_FULL) 4)
  else if color_index =? 3 then u8 (Z.lor (Z.lor HUE_YELLOW SAT_FULL) 4)
  else if color_index =? 4 then u8 (Z.lor (Z.lor HUE_GREEN SAT_FULL) 4)
  else if color_index =? 5 then u8 (Z.lor (Z.lor HUE_CYAN SAT_FULL) 4)
  else if color_index =? 6 then u8 (Z.lor (Z.lor HUE_BLUE SAT_FULL) 4)
  else u8 (Z.lor (Z.lor HUE_BLUE SAT_FULL) 4).

(** The loop of [draw_bricks]: the calls of [draw_rect] it makes, in
    order. *)
Fixpoint draw_bricks_loop (fuel : nat) (idx : nat) (s : Game) : list Rect :=
  match fuel with
  | O => []
  | S fuel' =>
      match bricks s !! idx with
      | None => []
      | Some b =>
          if Brick.active b =? 0 then draw_bricks_loop fuel' (S idx) s
          else
            let color := get_brick_color (Brick.color b) in
            mkRect (Brick.x b) (Brick.y b) BRICK_WIDTH BRICK_HEIGHT color
            :: draw_bricks_loop fuel' (S idx) s
      end
  end.

Definition draw_bricks (s : Game) : list Rect :=
  draw_bricks_loop (Z.to_nat TOTAL_BRICKS) 0 s.




(** ** The video flags *)

Definition DMA_ENABLE : Z := 0x01.
Definition VID_OUT_PAGE2 : Z := 0x02.
Definition COLORFILL : Z := 0x08.
Definition NOTILE : Z := 0x10.
Definition BLIT_IRQ : Z := 0x40.
Definition VRAMBANK2 : Z := 0x08.
Definition CLIP_X : Z := 0x10.
Definition CLIP_Y : Z := 0x20.

(** The two mirror variables and the registers they are copied to. *)
Record Video : Type := mkVideo {
  bank_mirror : Z;
  dma_mirror : Z;
  BANK_FLAGS : Z;
  DMA_FLAGS : Z
}.

(** The flag set-up at the top of [main]. *)
Definition main_flags (v : Video) : Video :=
  let dma := u8 (Z.lor (Z.lor DMA_ENABLE NOTILE) BLIT_IRQ) in
  let v := mkVideo (bank_mirror v) dma (BANK_FLAGS v) dma in
  let bank := u8 (Z.lor (Z.lor VRAMBANK2 CLIP_X) CLIP_Y) in
  mkVideo bank (dma_mirror v) bank (DMA_FLAGS v).

Definition swap_buffers (v : Video) : Video :=
  let bank := u8 (Z.lxor (bank_mirror v) VRAMBANK2) in
  let v := mkVideo bank (dma_mirror v) bank (DMA_FLAGS v) in
  let dma := u8 (Z.lxor (dma_mirror v) VID_OUT_PAGE2) in
  mkVideo (bank_mirror v) dma (BANK_FLAGS v) dma.

(** What a call of [draw_rect] does to the flags: the register gets the
    mirror with COLORFILL, the mirror stays. *)
Definition blit_flags (v : Video) : Video :=
  mkVideo (bank_mirror v) (dma_mirror v) (BANK_FLAGS v)
    (u8 (Z.lor (dma_mirror v) COLORFILL)).

(** The video flags after the set-up and [n] rounds of the frame loop;
    each round draws (at least the [clear_screen] rectangle) and then
    swaps. *)
Fixpoint video_after (n : nat) : Video :=
  match n with
  | O => main_flags (mkVideo 0 0 0 0)
  | S n' => swap_buffers (blit_flags (video_after n'))
  end.

(** ** Vocabulary of the further properties *)

(** Brick [b'] is brick [b], possibly destroyed since. *)
Definition worn (b b' : Brick.t) : Prop :=
  Brick.x b' = Brick.x b ∧ Brick.y b' = Brick.y b
  ∧ Brick.color b' = Brick.color b
  ∧ (Brick.active b' = Brick.active b ∨ Brick.active b' = 0).

(** The rectangles of two bricks overlap. *)
Definition bricks_overlap (a b : Brick.t) : Prop :=
  (Brick.x a < Brick.x b + BRICK_WIDTH ∧ Brick.x b < Brick.x a + BRICK_WIDTH)
  ∧ (Brick.y a < Brick.y b + BRICK_HEIGHT ∧ Brick.y b < Brick.y a + BRICK_HEIGHT).

(** The brick that [init_bricks] puts at index [idx]. *)
Definition grid_brick (idx : Z) : Brick.t :=
  Brick.mk (idx mod BRICK_COLS * BRICK_SPACING_X + BRICK_START_X)
           (idx / BRICK_COLS * BRICK_SPACING_Y + BRICK_START_Y)
           (idx / BRICK_COLS + 1)
           1.

(** LEFT is held and RIGHT is not. *)
Definition left_only (pad : Z) : Prop :=
  held BTN_LEFT (buttons pad) = true ∧ held BTN_RIGHT (buttons pad) = false.

(** The three buttons the game reads are decoded from the pad byte as its
    cleared bits 0, 1 and 4. *)
Definition decodes (pad : Z) : bool :=
  (buttons pad =? 255 - pad)
  && eqb (held BTN_RIGHT (buttons pad)) (negb (Z.testbit pad 0))
  && eqb (held BTN_LEFT (buttons pad)) (negb (Z.testbit pad 1))
  && eqb (held BTN_A (buttons pad)) (negb (Z.testbit pad 4)).

(** The paddle position [update_paddle] computes from [x], by buttons. *)
Definition paddle_step (right left : bool) (x : Z) : Z :=
  match right, left with
  | false, false => x
  | true, false =>
      if x + PADDLE_SPEED <? SCREEN_WIDTH - PADDLE_WIDTH
      then x + PADDLE_SPEED else x
  | false, true => if PADDLE_SPEED <=? x then x - PADDLE_SPEED else x
  | true, true =>
      if x + PADDLE_SPEED <? SCREEN_WIDTH - PADDLE_WIDTH
      then x else x - PADDLE_SPEED
  end.

(** Six frames after [seam_run] the ball arrives at the right wall; one
    frame after [prefilter_run] it is about to pass the top margin. *)
Definition right_wall_run : list Z := seam_run ++ replicate 6 0xFF.
Definition top_wall_run : list Z := prefilter_run ++ [0xFF].

(** A whole game: 1158 frames that destroy all 48 bricks (and lose four
    balls on the way). *)
Definition winning_run : list Z :=
  held_for [hold 0xFD 9; hold 0xEF 1; hold 0xFF 37; hold 0xFE 22;
            hold 0xFD 4; hold 0xFF 37; hold 0xFD 21; hold 0xFE 5;
            hold 0xFF 109; hold 0xFD 7; hold 0xFF 1; hold 0xFE 18;
            hold 0xFF 99; hold 0xFD 16; hold 0xFF 1; hold 0xFE 33;
            hold 0xEF 1; hold 0xFF 39; hold 0xFD 33; hold 0xFE 25;
            hold 0xEF 1; hold 0xFF 85; hold 0xFD 23; hold 0xFF 1;
            hold 0xFE 31; hold 0xEF 1; hold 0xFF 96; hold 0xFD 15;
            hold 0xFE 11; hold 0xFF 71; hold 0xFD 23; hold 0xFF 1;
            hold 0xFE 2; hold 0xFF 57; hold 0xFE 8; hold 0xFD 18;
            hold 0xFF 89; hold 0xFE 22; hold 0xFD 32; hold 0xEF 1;
            hold 0xFF 52].

(** The rectangle [draw_bricks] draws for an active brick. *)
Definition brick_rect (b : Brick.t) : Rect :=
  mkRect (Brick.x b) (Brick.y b) BRICK_WIDTH BRICK_HEIGHT
    (get_brick_color (Brick.color b)).

(** The two settings of the video flags. *)
Definition page_one : Video := mkVideo 0x38 0x51 0x38 0x51.
Definition page_two : Video := mkVideo 0x30 0x53 0x30 0x53.
(** * Properties *)

(** ** Proof tools *)

Lemma u8_small z : 0 ≤ z < 256 → u8 z = z.
Proof. intros H. unfold u8. by apply Z.mod_small. Qed.

Lemma u8_range z : 0 ≤ u8 z < 256.
Proof. unfold u8. apply Z.mod_pos_bound. lia. Qed.

Lemma u16_small z : 0 ≤ z < 65536 → u16 z = z.
Proof. intros H. unfold u16. by apply Z.mod_small. Qed.

Lemma i8_small z : -128 ≤ z < 128 → i8 z = z.
Proof. intros H. unfold i8. rewrite Z.mod_small; lia. Qed.

(** Case analysis on the tests of a function body, and the tests turned
    into arithmetic facts. *)
Ltac split_tests :=
  repeat match goal with
  | |- context [if ?c then _ else _] => destruct c eqn:?
  end.

Ltac tests_to_facts :=
  repeat match goal with
  | H : negb _ = true |- _ => apply negb_true_iff in H
  | H : negb _ = false |- _ => apply negb_false_iff in H
  | H : (_ && _) = true |- _ => apply andb_true_iff in H; destruct H
  | H : (_ || _) = false |- _ => apply orb_false_iff in H; destruct H
  | H : (_ && _) = false |- _ => apply andb_false_iff in H; destruct H
  | H : (_ || _) = true |- _ => apply orb_true_iff in H; destruct H
  | H : (_ <? _) = true |- _ => apply Z.ltb_lt in H
  | H : (_ <? _) = false |- _ => apply Z.ltb_ge in H
  | H : (_ <=? _) = true |- _ => apply Z.leb_le in H
  | H : (_ <=? _) = false |- _ => apply Z.leb_gt in H
  | H : (_ =? _) = true |- _ => apply Z.eqb_eq in H
  | H : (_ =? _) = false |- _ => apply Z.eqb_neq in H
  end.

Ltac unfold_consts :=
  unfold SCREEN_WIDTH, SCREEN_HEIGHT, PADDLE_WIDTH, PADDLE_HEIGHT, PADDLE_Y,
    PADDLE_SPEED, BALL_SIZE, BALL_SPEED_X, BALL_SPEED_Y, BRICK_WIDTH,
    BRICK_HEIGHT, BRICK_ROWS, BRICK_START_Y, BRICK_SPACING_Y in *.

Ltac parity := Z.div_mod_to_equations; lia.

Lemma read_input_buttons pad s : input_buffer (read_input pad s) = buttons pad.
Proof. reflexivity. Qed.

Lemma read_input_prev pad s : prev_input (read_input pad s) = input_buffer s.
Proof. reflexivity. Qed.

Lemma run_from_start pads : run pads = run_from start pads.
Proof. reflexivity. Qed.

Lemma start_value :
  start = mkGame 0 52 62 111 0 0 0 0 0 0 3 48 (bricks start).
Proof. reflexivity. Qed.

(** ** The paddle *)

Lemma update_paddle_bounds s :
  paddle_in_bounds s → paddle_in_bounds (update_paddle s).
Proof.
  unfold paddle_in_bounds, update_paddle, SCREEN_WIDTH, PADDLE_WIDTH, PADDLE_SPEED.
  intros H. split_tests; tests_to_facts; cbn in *;
    try rewrite u8_small in * by lia; try lia.
  all: rewrite u8_small by lia; lia.
Qed.

Lemma update_paddle_only_paddle s :
  update_paddle s = set_paddle_x (paddle_x (update_paddle s)) s.
Proof.
  unfold update_paddle. destruct s. split_tests; reflexivity.
Qed.

(** The parts of the ball update leave the paddle and the input alone. *)
Lemma brick_loop_shape fuel idx s :
  brick_loop fuel idx s = s ∨ ∃ i b, brick_loop fuel idx s = brick_hit i b s.
Proof.
  revert idx. induction fuel as [|fuel IH]; intros idx; cbn; [by left|].
  destruct (bricks s !! idx) as [b|]; [|by left].
  split_tests; auto. right. by exists idx, b.
Qed.

Lemma ball_paddle_shape s :
  ball_paddle s = s ∨ ball_paddle s = paddle_bounce s.
Proof. unfold ball_paddle. split_tests; auto. Qed.

Lemma same_controls_refl s : same_controls s s.
Proof. by repeat split. Qed.

Lemma same_controls_trans s1 s2 s3 :
  same_controls s1 s2 → same_controls s2 s3 → same_controls s1 s3.
Proof. unfold same_controls. intuition congruence. Qed.

Lemma ball_bricks_controls s : same_controls s (ball_bricks s).
Proof.
  unfold ball_bricks.
  destruct (brick_loop_shape (Z.to_nat TOTAL_BRICKS) 0 s) as [->|(i & b & ->)];
    by repeat split.
Qed.

Lemma ball_paddle_controls s : same_controls s (ball_paddle s).
Proof.
  destruct (ball_paddle_shape s) as [->| ->]; [by repeat split|].
  unfold paddle_bounce. cbn. split_tests; by repeat split.
Qed.

Lemma update_ball_controls s : same_controls s (update_ball s).
Proof.
  unfold update_ball, ball_flight, ball_on_paddle, ball_top_bottom,
    ball_brick_area, ball_side_walls.
  destruct (ball_state s =? 0); cbn.
  { split_tests; by repeat split. }
  destruct (side_hit (ball_move s)); cbn;
    split_tests; cbn; try by repeat split.
  all: destruct (outside_brick_area _); cbn.
  all: eapply same_controls_trans;
    [|eapply same_controls_trans; [apply ball_paddle_controls|
                                   try apply ball_bricks_controls;
                                   try apply same_controls_refl]];
    by repeat split.
Qed.

Lemma frame_paddle_x pad s :
  paddle_x (frame pad s) = paddle_x (update_paddle (read_input pad s)).
Proof.
  unfold frame, update_game. cbn.
  by destruct (update_ball_controls (update_paddle (read_input pad s))) as [-> _].
Qed.

Lemma frame_input pad s : input_buffer (frame pad s) = buttons pad.
Proof.
  unfold frame, update_game. cbn.
  destruct (update_ball_controls (update_paddle (read_input pad s)))
    as (_ & -> & _).
  by rewrite update_paddle_only_paddle.
Qed.

Lemma frame_bounds pad s : paddle_in_bounds s → paddle_in_bounds (frame pad s).
Proof.
  unfold paddle_in_bounds. rewrite frame_paddle_x.
  intros H. by apply update_paddle_bounds.
Qed.

(** *** Holding RIGHT *)

Lemma update_paddle_right s :
  held BTN_RIGHT (input_buffer s) = true →
  held BTN_LEFT (input_buffer s) = false →
  paddle_x (update_paddle s) =
    if u8 (paddle_x s + PADDLE_SPEED) <? SCREEN_WIDTH - PADDLE_WIDTH
    then u8 (paddle_x s + PADDLE_SPEED) else paddle_x s.
Proof.
  intros Hr Hl. unfold update_paddle. rewrite Hr.
  destruct (_ <? _); cbn [input_buffer set_paddle_x]; by rewrite Hl.
Qed.

Lemma frame_right pad s :
  paddle_in_bounds s → right_only pad →
  paddle_x (frame pad s) =
    if paddle_x s + PADDLE_SPEED <? SCREEN_WIDTH - PADDLE_WIDTH
    then paddle_x s + PADDLE_SPEED else paddle_x s.
Proof.
  intros Hb [Hr Hl]. rewrite frame_paddle_x.
  unfold paddle_in_bounds, SCREEN_WIDTH, PADDLE_WIDTH in Hb.
  rewrite update_paddle_right by done.
  change (paddle_x (read_input pad s)) with (paddle_x s).
  by rewrite u8_small by (unfold PADDLE_SPEED; lia).
Qed.


Lemma start_in_bounds : paddle_in_bounds start.
Proof.
  unfold paddle_in_bounds, SCREEN_WIDTH, PADDLE_WIDTH.
  rewrite start_value. cbn. lia.
Qed.

(** C8: the paddle stays on the screen.  [0 ≤ paddle_x ≤ SCREEN_WIDTH -
    PADDLE_WIDTH] holds after [init_game], [update_paddle] keeps it
    whatever the buttons in [input_buffer] are, and so it holds at the top
    of every round of the frame loop. *)
Theorem paddle_invariant :
  paddle_in_bounds start
  ∧ (∀ s, paddle_in_bounds s → paddle_in_bounds (update_paddle s))
  ∧ (∀ s, reachable s → paddle_in_bounds s).
Proof.
  split; [|split].
  - apply start_in_bounds.
  - apply update_paddle_bounds.
  - induction 1 as [|pad s _ _ IH].
    + apply start_in_bounds.
    + by apply frame_bounds.
Qed.

Lemma paddle_invariant_witness :
  paddle_in_bounds (update_paddle start)
  ∧ paddle_in_bounds (frame 0xFE start).
Proof.
  split.
  - apply (proj1 (proj2 paddle_invariant) start), (proj1 paddle_invariant).
  - apply (proj2 (proj2 paddle_invariant) (frame 0xFE start)).
    apply reach_frame; [lia | apply reach_start].
Defined.

(** C2, as the spec has it, fails: from the centre, 26 frames of RIGHT
    would put the paddle at 104, but the step from 102 is refused. *)
Lemma hold_right_stops_short :
  paddle_in_bounds start
  ∧ Forall right_only (replicate 26 0xFE)
  ∧ paddle_x (run_from start (replicate 26 0xFE)) = 102
  ∧ Z.min (paddle_x start + 26 * PADDLE_SPEED) (SCREEN_WIDTH - PADDLE_WIDTH) = 104.
Proof.
  split; [apply start_in_bounds|].
  split; [|split; reflexivity].
  apply Forall_replicate. by split.
Qed.

(** C2, amended: holding RIGHT (and not LEFT) for N frames from an
    in-bounds [x0] gives [min (x0 + N * PADDLE_SPEED) (paddle_rest x0)],
    where the paddle rests at 102 from an even [x0 ≤ 102], at 103 from an
    odd one, and at 104 only when it starts there: a step that would end
    on [SCREEN_WIDTH - PADDLE_WIDTH] or beyond is not taken at all. *)
Theorem hold_right_frames s pads :
  paddle_in_bounds s → Forall right_only pads →
  paddle_x (run_from s pads)
  = Z.min (paddle_x s + Z.of_nat (length pads) * PADDLE_SPEED)
          (paddle_rest (paddle_x s)).
Proof.
  revert s.
  induction pads as [|pad pads IH]; intros s Hb Hall.
  - cbn. unfold paddle_rest, paddle_in_bounds, SCREEN_WIDTH, PADDLE_WIDTH,
      PADDLE_SPEED in *.
    split_tests; tests_to_facts; Z.div_mod_to_equations; lia.
  - apply Forall_cons in Hall as [Hpad Hall].
    change (run_from s (pad :: pads)) with (run_from (frame pad s) pads).
    rewrite IH by auto using frame_bounds.
    rewrite frame_right by done.
    unfold paddle_rest, paddle_in_bounds, SCREEN_WIDTH, PADDLE_WIDTH,
      PADDLE_SPEED in *.
    rewrite length_cons, Nat2Z.inj_succ.
    split_tests; tests_to_facts; Z.div_mod_to_equations; lia.
Qed.

Lemma hold_right_frames_witness :
  paddle_x (run_from start (replicate 40 0xFE)) = 102.
Proof.
  rewrite (hold_right_frames start (replicate 40 0xFE)).
  - reflexivity.
  - apply start_in_bounds.
  - apply Forall_replicate. by split.
Defined.

(** ** Launching the ball *)

Lemma update_ball_resting s :
  ball_state s = 0 →
  update_ball s =
    let s := set_ball_x (u8 (paddle_x s + (PADDLE_WIDTH - BALL_SIZE) ÷ 2)) s in
    if held BTN_A (input_buffer s) && negb (held BTN_A (prev_input s))
    then set_ball_vy (i8 (- BALL_SPEED_Y))
           (set_ball_vx (i8 BALL_SPEED_X) (set_ball_state 1 s))
    else s.
Proof.
  intros H. unfold update_ball, ball_flight, ball_on_paddle. rewrite H.
  cbn -[held]. by destruct (_ && _).
Qed.

Lemma update_paddle_ball_state s : ball_state (update_paddle s) = ball_state s.
Proof. by rewrite update_paddle_only_paddle. Qed.

Lemma update_paddle_input s : input_buffer (update_paddle s) = input_buffer s.
Proof. by rewrite update_paddle_only_paddle. Qed.

Lemma update_paddle_prev s : prev_input (update_paddle s) = prev_input s.
Proof. by rewrite update_paddle_only_paddle. Qed.

(** The frame of a resting ball. *)
Lemma frame_resting pad s :
  ball_state s = 0 →
  let fresh := held BTN_A (buttons pad) && negb (held BTN_A (input_buffer s)) in
  ball_state (frame pad s) = (if fresh then 1 else 0)
  ∧ (fresh = true →
     ball_vx (frame pad s) = BALL_SPEED_X ∧ ball_vy (frame pad s) = - BALL_SPEED_Y).
Proof.
  intros H fresh. unfold frame, update_game.
  rewrite update_ball_resting by by rewrite update_paddle_ball_state.
  cbn -[held buttons update_paddle read_input].
  rewrite update_paddle_input, update_paddle_prev.
  rewrite read_input_buttons, read_input_prev. fold fresh.
  destruct fresh; cbn; [|by rewrite update_paddle_ball_state].
  split; [done|]. intros _. by split.
Qed.

Lemma launches_held pads : ∀ s,
  held BTN_A (input_buffer s) = true → Forall a_pressed pads →
  launches s pads = O.
Proof.
  induction pads as [|pad pads IH]; intros s Hheld Hall; [done|].
  apply Forall_cons in Hall as [Hpad Hall]. cbn [launches].
  rewrite (IH (frame pad s)) by (by rewrite ?frame_input).
  destruct (ball_state s =? 0) eqn:Hs; [|done].
  apply Z.eqb_eq in Hs. destruct (frame_resting pad s Hs) as [-> _].
  by rewrite Hheld, andb_false_r.
Qed.

(** C4: a resting ball is launched in a frame exactly when A is down in
    this frame's input and was up in the previous frame's; it then leaves
    with velocity (+BALL_SPEED_X, -BALL_SPEED_Y) = (2, -2).  Keeping A down
    over any number of consecutive frames, from a resting ball and A up,
    launches once. *)
Theorem launch_on_rising_edge :
  (∀ s pad, ball_state s = 0 →
     (ball_state (frame pad s) = 1
      ↔ held BTN_A (buttons pad) = true ∧ held BTN_A (input_buffer s) = false)
     ∧ (ball_state (frame pad s) ≠ 1 → ball_state (frame pad s) = 0)
     ∧ (ball_state (frame pad s) = 1 →
        ball_vx (frame pad s) = 2 ∧ ball_vy (frame pad s) = -2))
  ∧ (∀ s pads, ball_state s = 0 → held BTN_A (input_buffer s) = false →
     pads ≠ [] → Forall a_pressed pads → launches s pads = 1%nat).
Proof.
  split.
  - intros s pad Hs. destruct (frame_resting pad s Hs) as [Hst Hv].
    cbn zeta in *. rewrite Hst.
    destruct (held BTN_A (buttons pad)), (held BTN_A (input_buffer s));
      cbn in *; repeat split; try done; try (intros [? ?]; done);
      intros; by apply Hv.
  - intros s [|pad pads] Hs Hup Hne Hall; [done|].
    apply Forall_cons in Hall as [Hpad Hall]. cbn [launches].
    rewrite launches_held by (by rewrite ?frame_input).
    destruct (frame_resting pad s Hs) as [-> _].
    unfold a_pressed in Hpad. by rewrite Hs, Hpad, Hup.
Qed.

Lemma launch_on_rising_edge_witness :
  ball_state (frame 0xEF start) = 1
  ∧ launches start (replicate 5 0xEF) = 1%nat.
Proof.
  split.
  - apply (proj1 launch_on_rising_edge start 0xEF); [reflexivity|].
    split; reflexivity.
  - apply (proj2 launch_on_rising_edge start (replicate 5 0xEF));
      [reflexivity | reflexivity | discriminate |].
    apply Forall_replicate. reflexivity.
Defined.

(** ** Losing the ball *)

Lemma ball_side_walls_y s : ball_y (ball_side_walls s) = ball_y s.
Proof. unfold ball_side_walls. by destruct (side_hit s). Qed.

Lemma update_ball_lost s :
  ball_state s ≠ 0 →
  SCREEN_HEIGHT - 2 ≤ ball_y (ball_side_walls (ball_move s)) →
  update_ball s = ball_lost (ball_side_walls (ball_move s)).
Proof.
  intros Hs Hy. apply Z.eqb_neq in Hs.
  unfold update_ball, ball_flight, ball_on_paddle. rewrite Hs.
  cbn [and_then]. unfold ball_top_bottom.
  unfold SCREEN_HEIGHT in *.
  destruct (_ <? 8) eqn:Htop; [apply Z.ltb_lt in Htop; lia|].
  destruct (_ <=? _) eqn:Hbot; [done|apply Z.leb_gt in Hbot; lia].
Qed.

Lemma ball_side_walls_rest s :
  let s' := ball_side_walls (ball_move s) in
  lives s' = lives s ∧ score s' = score s ∧ bricks s' = bricks s
  ∧ bricks_left s' = bricks_left s ∧ ball_state s' = ball_state s
  ∧ same_controls s s'.
Proof.
  cbn. unfold ball_side_walls.
  destruct (side_hit (ball_move s)); by repeat split.
Qed.

(** C3: an Active ball whose y, after the move and the wall tests, is at
    least [SCREEN_HEIGHT - 2] is lost in that frame.  [lives] is
    decremented (an 8-bit decrement: one less whenever a life is left), the
    ball rests again at ((SCREEN_WIDTH - BALL_SIZE)/2, PADDLE_Y - BALL_SIZE -
    1) = (62, 111) with both velocities zero whatever they were, and
    nothing of the paddle or brick collision happens: score, bricks and
    the brick counter are as before. *)
Theorem ball_lost_at_bottom s :
  ball_state s = 1 →
  SCREEN_HEIGHT - 2 ≤ ball_y (ball_side_walls (ball_move s)) →
  let s' := update_ball s in
  lives s' = u8 (lives s - 1)
  ∧ (0 < lives s < 256 → lives s' = lives s - 1)
  ∧ ball_state s' = 0
  ∧ ball_x s' = (SCREEN_WIDTH - BALL_SIZE) ÷ 2 ∧ ball_x s' = 62
  ∧ ball_y s' = PADDLE_Y - BALL_SIZE - 1 ∧ ball_y s' = 111
  ∧ ball_vx s' = 0 ∧ ball_vy s' = 0
  ∧ score s' = score s ∧ bricks s' = bricks s
  ∧ bricks_left s' = bricks_left s.
Proof.
  intros Hs Hy. cbn zeta. rewrite update_ball_lost by (done || lia).
  destruct (ball_side_walls_rest s) as (Hl & Hsc & Hb & Hbl & _).
  cbn zeta in *. cbn -[u8]. rewrite Hl, Hsc, Hb, Hbl.
  repeat split; try done.
  intros H. apply u8_small. lia.
Qed.

Lemma ball_lost_at_bottom_witness :
  (ball_state first_loss = 1 ∧ lives first_loss = 3
   ∧ ball_vx first_loss = -2 ∧ ball_vy first_loss = 2)
  ∧ lives (update_ball first_loss) = 2
  ∧ ball_vx (update_ball first_loss) = 0
  ∧ ball_vy (update_ball first_loss) = 0.
Proof.
  assert (Hs : ball_state first_loss = 1) by (vm_compute; reflexivity).
  assert (Hy : SCREEN_HEIGHT - 2
               ≤ ball_y (ball_side_walls (ball_move first_loss)))
    by (vm_compute; discriminate).
  destruct (ball_lost_at_bottom first_loss Hs Hy)
    as (_ & Hl & _ & _ & _ & _ & _ & Hvx & Hvy & _).
  split; [repeat split; vm_compute; reflexivity|].
  split; [|by split].
  rewrite Hl; vm_compute; [reflexivity | split; reflexivity].
Defined.

(** ** The lives shown by the HUD *)

Lemma draw_hud_loop_length s fuel : ∀ i x_pos,
  0 ≤ i ≤ lives s → lives s < 256 → lives s - i ≤ Z.of_nat fuel →
  length (draw_hud_loop fuel i x_pos s) = Z.to_nat (lives s - i).
Proof.
  induction fuel as [|fuel IH]; intros i x_pos Hi Hl Hf.
  - cbn. lia.
  - cbn [draw_hud_loop]. destruct (i <? lives s) eqn:Hlt; tests_to_facts.
    + cbn [length]. rewrite u8_small by lia. rewrite IH by lia. lia.
    + cbn. lia.
Qed.

Lemma draw_hud_length s :
  0 ≤ lives s < 256 → length (draw_hud s) = Z.to_nat (lives s).
Proof.
  intros H. unfold draw_hud. rewrite draw_hud_loop_length by lia.
  f_equal. lia.
Qed.

Lemma frame_resting_counters pad s :
  ball_state s = 0 →
  lives (frame pad s) = lives s ∧ score (frame pad s) = score s
  ∧ bricks (frame pad s) = bricks s ∧ bricks_left (frame pad s) = bricks_left s.
Proof.
  intros H. unfold frame, update_game.
  rewrite update_ball_resting by by rewrite update_paddle_ball_state.
  cbn -[held buttons update_paddle read_input]. destruct (_ && _); cbn;
    by rewrite update_paddle_only_paddle.
Qed.

(** C10: [lives] is an unsigned byte and the bottom branch decrements it
    without a test.  Losing the ball with no life left therefore takes
    [lives] from 0 to 255; the game is then in its ordinary resting state,
    a fresh press of A launches the next ball with 255 lives, and
    [draw_hud] draws 255 life rectangles, one for each unit of the wrapped
    counter. *)
Theorem lives_wrap_around s :
  ball_state s = 1 →
  SCREEN_HEIGHT - 2 ≤ ball_y (ball_side_walls (ball_move s)) →
  lives s = 0 →
  let s' := update_ball s in
  lives s' = 255
  ∧ ball_state s' = 0
  ∧ length (draw_hud s') = 255%nat
  ∧ (∀ pad, a_pressed pad → held BTN_A (input_buffer s') = false →
     ball_state (frame pad s') = 1 ∧ lives (frame pad s') = 255).
Proof.
  intros Hs Hy Hl. cbn zeta.
  assert (Hs' : ball_state (update_ball s) = 0)
    by (rewrite update_ball_lost by (done || lia); reflexivity).
  assert (Hl' : lives (update_ball s) = 255).
  { rewrite update_ball_lost by (done || lia). cbn -[u8].
    destruct (ball_side_walls_rest s) as (-> & _). by rewrite Hl. }
  split; [done|]. split; [done|]. split.
  - rewrite draw_hud_length by lia. by rewrite Hl'.
  - intros pad Hpad Hup.
    destruct (frame_resting pad _ Hs') as [Hst _].
    destruct (frame_resting_counters pad _ Hs') as (Hlv & _).
    unfold a_pressed in Hpad. rewrite Hpad, Hup in Hst.
    by rewrite Hst, Hlv.
Qed.

Lemma lives_wrap_around_witness :
  (ball_state fourth_loss = 1 ∧ lives fourth_loss = 0)
  ∧ lives (update_ball fourth_loss) = 255
  ∧ length (draw_hud (update_ball fourth_loss)) = 255%nat
  ∧ ball_state (frame 0xEF (update_ball fourth_loss)) = 1.
Proof.
  assert (Hs : ball_state fourth_loss = 1) by (vm_compute; reflexivity).
  assert (Hy : SCREEN_HEIGHT - 2
               ≤ ball_y (ball_side_walls (ball_move fourth_loss)))
    by (vm_compute; discriminate).
  assert (Hl : lives fourth_loss = 0) by (vm_compute; reflexivity).
  destruct (lives_wrap_around fourth_loss Hs Hy Hl) as (H1 & _ & H3 & H4).
  split; [by split|]. split; [done|]. split; [done|].
  apply (H4 0xEF); vm_compute; reflexivity.
Defined.

(** ** The paddle collision *)

(** C6, as the spec has it, fails: 70 frames into [low_ball] the ball is
    not lost, its y = 117 lies in the paddle band [112, 119) and it
    overlaps the paddle horizontally, yet it is neither moved to y = 111
    nor turned upwards, because it is already below the paddle top. *)
Lemma paddle_band_without_bounce :
  match ball_flight beside_paddle with
  | Next m =>
      ball_state m = 1
      ∧ in_paddle_band m = true ∧ over_paddle m = true
      ∧ (ball_y m = 117 ∧ ball_vy m = 2 ∧ paddle_x m = 44 ∧ ball_x m = 66)
      ∧ ball_paddle m = m
      ∧ ball_y (ball_paddle m) ≠ PADDLE_Y - BALL_SIZE - 1
      ∧ ball_vy (ball_paddle m) ≠ - ball_vy m
  | Return _ => False
  end.
Proof.
  vm_compute. repeat split; first [reflexivity | intros H; discriminate H].
Qed.

Lemma paddle_catches_tests s :
  paddle_catches s
  ↔ in_paddle_band s = true ∧ over_paddle s = true ∧ (ball_y s <? PADDLE_Y) = true.
Proof.
  unfold paddle_catches, in_paddle_band, over_paddle, PADDLE_Y, BALL_SIZE,
    PADDLE_HEIGHT, PADDLE_WIDTH.
  rewrite !andb_true_iff, !Z.leb_le, !Z.ltb_lt. lia.
Qed.

(** C6, amended: the paddle collision acts only when the ball's y is in
    the upper part [PADDLE_Y - BALL_SIZE, PADDLE_Y) = [112, 115) of the
    band and the ball overlaps the paddle horizontally.  Then the ball is
    put at y = PADDLE_Y - BALL_SIZE - 1 = 111, vy is negated exactly when
    it is positive, vx becomes BALL_SPEED_X exactly when it is zero, and
    nothing else changes.  In every other case, also for y in [115, 119),
    the step changes nothing. *)
Theorem paddle_collision s :
  -128 ≤ ball_vy s < 128 →
  (paddle_catches s →
   ball_paddle s =
     set_ball_vx (if ball_vx s =? 0 then BALL_SPEED_X else ball_vx s)
       (set_ball_vy (if 0 <? ball_vy s then - ball_vy s else ball_vy s)
          (set_ball_y (PADDLE_Y - BALL_SIZE - 1) s)))
  ∧ (¬ paddle_catches s → ball_paddle s = s).
Proof.
  intros Hvy. split; intros H.
  - apply paddle_catches_tests in H as (Hb & Ho & Hy).
    unfold ball_paddle, paddle_bounce. rewrite Hb, Ho, Hy.
    destruct s as [fc px bx by_ vx vy st ib pi sc lv bl br]. cbn in *.
    destruct (0 <? vy) eqn:Hpos; tests_to_facts; cbn.
    + rewrite (i8_small (- vy)) by lia. by destruct (vx =? 0).
    + by destruct (vx =? 0).
  - rewrite paddle_catches_tests in H. unfold ball_paddle.
    destruct (in_paddle_band s); [|done].
    destruct (over_paddle s); [|done].
    destruct (ball_y s <? PADDLE_Y); [|done].
    by destruct H.
Qed.

Lemma paddle_collision_witness :
  ball_paddle (mkGame 0 52 62 113 2 2 1 0 0 0 3 48 [])
  = mkGame 0 52 62 111 2 (-2) 1 0 0 0 3 48 []
  ∧ ball_paddle (mkGame 0 52 62 115 2 2 1 0 0 0 3 48 [])
    = mkGame 0 52 62 115 2 2 1 0 0 0 3 48 [].
Proof.
  split.
  - rewrite (proj1 (paddle_collision
                      (mkGame 0 52 62 113 2 2 1 0 0 0 3 48 [])
                      ltac:(cbn; lia))); [reflexivity|].
    unfold paddle_catches. cbn. unfold_consts. lia.
  - apply (proj2 (paddle_collision
                    (mkGame 0 52 62 115 2 2 1 0 0 0 3 48 [])
                    ltac:(cbn; lia))).
    unfold paddle_catches. cbn. unfold_consts. lia.
Defined.

(** ** The brick loop *)

Lemma collides_tests s b :
  collides s b
  ↔ (Brick.active b =? 0) = false ∧ x_apart s b = false ∧ y_apart s b = false.
Proof.
  unfold collides, overlaps, x_apart, y_apart.
  rewrite !orb_false_iff, !Z.leb_gt, Z.eqb_neq. lia.
Qed.

Lemma brick_loop_spec fuel : ∀ idx s,
  (idx + fuel ≤ length (bricks s))%nat →
  (brick_loop fuel idx s = s
   ∧ ∀ j b, (idx ≤ j < idx + fuel)%nat → bricks s !! j = Some b → ¬ collides s b)
  ∨ (∃ i b,
       (idx ≤ i < idx + fuel)%nat ∧ bricks s !! i = Some b ∧ collides s b
       ∧ (∀ j b', (idx ≤ j < i)%nat → bricks s !! j = Some b' → ¬ collides s b')
       ∧ brick_loop fuel idx s = brick_hit i b s).
Proof.
  induction fuel as [|fuel IH]; intros idx s Hlen.
  { left. split; [done|]. intros; lia. }
  cbn [brick_loop].
  destruct (lookup_lt_is_Some_2 (bricks s) idx) as [b Hb]; [lia|].
  rewrite Hb.
  destruct (decide (collides s b)) as [Hc|Hc].
  - pose proof Hc as Hc'. apply collides_tests in Hc' as (-> & -> & ->).
    right. exists idx, b.
    split; [lia|]. split; [done|]. split; [done|]. split; [intros; lia|done].
  - assert (Hskip : (if Brick.active b =? 0 then brick_loop fuel (S idx) s
                     else if x_apart s b then brick_loop fuel (S idx) s
                     else if y_apart s b then brick_loop fuel (S idx) s
                     else brick_hit idx b s) = brick_loop fuel (S idx) s).
    { rewrite collides_tests in Hc.
      destruct (Brick.active b =? 0); [done|].
      destruct (x_apart s b); [done|].
      destruct (y_apart s b); [done|]. by destruct Hc. }
    rewrite Hskip.
    destruct (IH (S idx) s) as [[Heq Hnone]|(i & b' & Hi & Hlk & Hcol & Hfirst & Heq)];
      [lia| |].
    + left. split; [done|]. intros j bj Hj Hlkj.
      destruct (decide (j = idx)) as [->|Hne]; [congruence|].
      apply (Hnone j); [lia|done].
    + right. exists i, b'.
      split; [lia|]. split; [done|]. split; [done|]. split; [|done].
      intros j bj Hj Hlkj.
      destruct (decide (j = idx)) as [->|Hne]; [congruence|].
      apply (Hfirst j); [lia|done].
Qed.

Lemma ball_bricks_spec s :
  array_intact s →
  (ball_bricks s = s ∧ ∀ j b, bricks s !! j = Some b → ¬ collides s b)
  ∨ (∃ i b, first_collision s i b ∧ ball_bricks s = brick_hit i b s).
Proof.
  intros Hlen. unfold ball_bricks.
  destruct (brick_loop_spec (Z.to_nat TOTAL_BRICKS) 0 s)
    as [[Heq Hnone]|(i & b & Hi & Hlk & Hcol & Hfirst & Heq)].
  - unfold array_intact in Hlen. lia.
  - left. split; [done|]. intros j b Hlk. apply (Hnone j); [|done].
    apply lookup_lt_Some in Hlk. unfold array_intact in Hlen. lia.
  - right. exists i, b. split; [|done]. split; [done|]. split; [done|].
    intros j b' Hj. apply Hfirst. lia.
Qed.

Lemma count_active_cons b l :
  count_active (b :: l)
  = ((if decide (Brick.active b = 0%Z) then 0 else 1) + count_active l)%nat.
Proof.
  unfold count_active. rewrite filter_cons.
  destruct (decide (Brick.active b = 0)); by case_decide.
Qed.

Lemma count_active_deactivate l : ∀ i b,
  l !! i = Some b → Brick.active b ≠ 0 →
  count_active l = S (count_active (<[i := Brick.set_active 0 b]> l)).
Proof.
  induction l as [|a l IH]; intros [|i] b Hlk Hact; try done.
  - cbn in Hlk. injection Hlk as ->. cbn [insert list_insert].
    rewrite !count_active_cons. cbn. by case_decide.
  - cbn in Hlk. cbn [insert list_insert]. rewrite !count_active_cons.
    rewrite (IH i b) by done. by case_decide.
Qed.

Lemma count_active_le l : (count_active l ≤ length l)%nat.
Proof. unfold count_active. apply length_filter. Qed.

(** Only the brick loop writes the bricks, their counter and the score. *)
Lemma ball_flight_bricks s :
  match ball_flight s with
  | Next m => same_bricks s m ∧ lives m = lives s ∧ ball_state s ≠ 0
  | Return r => same_bricks s r
  end.
Proof.
  unfold ball_flight, ball_on_paddle.
  destruct (ball_state s =? 0) eqn:Hs; tests_to_facts.
  { cbn -[held]. by destruct (_ && _). }
  cbn [and_then]. unfold ball_top_bottom, ball_side_walls.
  destruct (side_hit (ball_move s)); split_tests; by repeat split.
Qed.

Lemma ball_paddle_bricks s :
  same_bricks s (ball_paddle s) ∧ lives (ball_paddle s) = lives s.
Proof.
  destruct (ball_paddle_shape s) as [->| ->]; [by repeat split|].
  unfold paddle_bounce. cbn. split_tests; by repeat split.
Qed.

Lemma same_bricks_trans s1 s2 s3 :
  same_bricks s1 s2 → same_bricks s2 s3 → same_bricks s1 s3.
Proof. unfold same_bricks. intuition congruence. Qed.

Lemma update_ball_by_entry s :
  match brick_loop_entry s with
  | Some m =>
      update_ball s = ball_bricks m ∧ same_bricks s m ∧ lives m = lives s
      ∧ ball_state s ≠ 0
  | None => same_bricks s (update_ball s)
  end.
Proof.
  unfold brick_loop_entry, update_ball.
  pose proof (ball_flight_bricks s) as Hf.
  destruct (ball_flight s) as [r|m]; cbn [and_then outcome]; [done|].
  destruct Hf as (Hsame & Hl & Hs).
  destruct (ball_paddle_bricks m) as [Hp Hlp].
  unfold ball_brick_area. destruct (outside_brick_area _); cbn.
  - by eapply same_bricks_trans.
  - split; [done|]. split; [by eapply same_bricks_trans|].
    split; [congruence|done].
Qed.

Lemma counter_exact_same s s' :
  same_bricks s s' → counter_exact s → counter_exact s'.
Proof. unfold counter_exact. intros (-> & -> & _). done. Qed.

Lemma array_intact_same s s' :
  same_bricks s s' → array_intact s → array_intact s'.
Proof. unfold array_intact. intros (-> & _). done. Qed.

Lemma brick_hit_counter s i b :
  array_intact s → counter_exact s → bricks s !! i = Some b →
  Brick.active b ≠ 0 →
  bricks_left (brick_hit i b s) = bricks_left s - 1
  ∧ 0 < bricks_left s ≤ 48
  ∧ counter_exact (brick_hit i b s) ∧ array_intact (brick_hit i b s).
Proof.
  unfold array_intact, counter_exact. intros Hlen Hc Hlk Hact.
  pose proof (count_active_deactivate _ _ _ Hlk Hact) as Hcnt.
  pose proof (count_active_le (bricks s)) as Hle.
  rewrite Hlen in Hle. change (Z.to_nat TOTAL_BRICKS) with 48%nat in *.
  assert (Hrange : 0 < bricks_left s ≤ 48) by lia.
  assert (Hleft : bricks_left (brick_hit i b s) = bricks_left s - 1).
  { cbn -[u8]. apply u8_small. lia. }
  split; [done|]. split; [done|]. split.
  - rewrite Hleft. change (bricks (brick_hit i b s))
      with (<[i:=Brick.set_active 0 b]> (bricks s)). lia.
  - change (bricks (brick_hit i b s))
      with (<[i:=Brick.set_active 0 b]> (bricks s)).
    by rewrite length_insert.
Qed.

Lemma ball_bricks_counter s :
  array_intact s → counter_exact s →
  counter_exact (ball_bricks s) ∧ array_intact (ball_bricks s).
Proof.
  intros Hlen Hc.
  destruct (ball_bricks_spec s Hlen) as [[-> _]|(i & b & (Hlk & [Hact _] & _) & ->)];
    [done|].
  by apply brick_hit_counter.
Qed.

Lemma update_ball_counter s :
  array_intact s → counter_exact s →
  counter_exact (update_ball s) ∧ array_intact (update_ball s).
Proof.
  intros Hlen Hc. pose proof (update_ball_by_entry s) as H.
  destruct (brick_loop_entry s) as [m|].
  - destruct H as (-> & Hsame & _).
    apply ball_bricks_counter;
      eauto using counter_exact_same, array_intact_same.
  - eauto using counter_exact_same, array_intact_same.
Qed.

Lemma update_paddle_bricks s : same_bricks s (update_paddle s).
Proof. rewrite update_paddle_only_paddle. by repeat split. Qed.

Lemma frame_counter pad s :
  array_intact s → counter_exact s →
  counter_exact (frame pad s) ∧ array_intact (frame pad s).
Proof.
  intros Hlen Hc. unfold frame, update_game.
  destruct (update_ball_counter (update_paddle (read_input pad s))) as [H1 H2].
  - eapply array_intact_same; [apply update_paddle_bricks|done].
  - eapply counter_exact_same; [apply update_paddle_bricks|done].
  - done.
Qed.

(** [init_bricks] overwrites every entry of the array. *)
Lemma init_bricks_any s :
  array_intact s →
  bricks (init_bricks s) = bricks start ∧ bricks_left (init_bricks s) = 48.
Proof.
  unfold array_intact. destruct s as [fc px bx by_ vx vy st ib pi sc lv bl br].
  cbn [bricks]. intros Hlen.
  do 48 (destruct br as [|? br]; [done|]). destruct br; [|done].
  split; reflexivity.
Qed.

Lemma init_game_counter s :
  array_intact s → counter_exact (init_game s) ∧ array_intact (init_game s).
Proof.
  intros Hlen. unfold init_game.
  match goal with |- context [init_bricks ?g] =>
    destruct (init_bricks_any g) as [Hb Hl]; [done|]
  end.
  unfold counter_exact, array_intact. rewrite Hb, Hl. by split.
Qed.

Lemma reachable_counter s : reachable s → counter_exact s ∧ array_intact s.
Proof.
  induction 1 as [|pad s _ _ [IH1 IH2]].
  - by apply init_game_counter.
  - by apply frame_counter.
Qed.

(** C7: [bricks_left] equals the number of bricks whose active flag is
    set.  This holds after [init_game] (from any contents of the 48-entry
    array), is kept by [update_paddle] and by [update_ball], the brick
    loop included, and so holds in every state the frame loop reaches. *)
Theorem brick_counter_invariant :
  (∀ s, array_intact s → counter_exact (init_game s))
  ∧ counter_exact start
  ∧ (∀ s, counter_exact s → counter_exact (update_paddle s))
  ∧ (∀ s, array_intact s → counter_exact s → counter_exact (update_ball s))
  ∧ (∀ s, reachable s → counter_exact s).
Proof.
  split; [intros; by apply init_game_counter|].
  split; [by apply init_game_counter|].
  split; [intros s; apply counter_exact_same, update_paddle_bricks|].
  split; [intros; by apply update_ball_counter|].
  intros; by apply reachable_counter.
Qed.

(** ** The states of a game *)

Ltac split_inv := split; [|split; [|split; [|split]]].

Ltac solve_ball_ok :=
  unfold ball_ok; cbn; unfold i8, u8; cbn; repeat split;
  first [ lia | left; lia | right; split; [lia | parity] | parity ].

Lemma reachable_run_from pads : ∀ s,
  reachable s → pad_bytes pads → reachable (run_from s pads).
Proof.
  induction pads as [|pad pads IH]; intros s Hs Hp; [done|].
  apply Forall_cons in Hp as [Hpad Hp].
  apply (IH (frame pad s)); [by apply reach_frame|done].
Qed.

Lemma reachable_run pads : pad_bytes pads → reachable (run pads).
Proof. apply reachable_run_from, reach_start. Qed.

Lemma update_paddle_even s : paddle_even s → paddle_even (update_paddle s).
Proof.
  unfold paddle_even, update_paddle. unfold_consts. intros [Hb He].
  split_tests; tests_to_facts; cbn in *;
    repeat (rewrite u8_small in * by lia); split; try lia; try parity.
  all: rewrite u8_small by lia; try lia; parity.
Qed.

Lemma ball_move_walls_ok s :
  ball_ok 8 125 s → ball_ok 6 127 (ball_side_walls (ball_move s)).
Proof.
  destruct s as [fc px bx by_ vx vy st ib pi sc lv bl br].
  unfold ball_ok. cbn. intros (Hvx & Hvy & Hx & Hy).
  unfold ball_side_walls, side_hit, ball_move. cbn -[u8].
  unfold_consts.
  destruct Hvx as [->|[-> Hev]]; destruct Hvy as [->| ->];
    rewrite !u8_small by (first [lia | parity]);
    split_tests; tests_to_facts; solve_ball_ok.
Qed.

Lemma same_table_refl s : same_table s s.
Proof. by repeat split. Qed.

Lemma same_table_trans s1 s2 s3 :
  same_table s1 s2 → same_table s2 s3 → same_table s1 s3.
Proof.
  intros (Hb1 & Hl1 & Hc1) (Hb2 & Hl2 & Hc2). split; [|split].
  - by eapply same_bricks_trans.
  - congruence.
  - by eapply same_controls_trans.
Qed.

Lemma same_table_inv s s' : same_table s s' → table_inv s → table_inv s'.
Proof.
  intros ((Hbr & Hbl & Hsc) & Hlv & (Hpx & _)) (Hlen & Hc & Hsum & Hl & Hp).
  unfold table_inv, array_intact, counter_exact, paddle_even in *.
  rewrite Hbr, Hbl, Hsc, Hlv, Hpx. by split_inv.
Qed.

Lemma ball_move_walls_table s : same_table s (ball_side_walls (ball_move s)).
Proof.
  unfold ball_side_walls. destruct (side_hit (ball_move s)); by repeat split.
Qed.

Lemma ball_top_bottom_ok s :
  ball_ok 6 127 s →
  match ball_top_bottom s with
  | Next m => ball_ok 8 125 m ∧ ball_state m = ball_state s ∧ same_table s m
  | Return r => r = ball_lost s
  end.
Proof.
  destruct s as [fc px bx by_ vx vy st ib pi sc lv bl br].
  unfold ball_ok. cbn. intros (Hvx & Hvy & Hx & Hy).
  unfold ball_top_bottom. cbn. unfold_consts.
  split_tests; tests_to_facts; [|done|]; (split; [|by repeat split]).
  - destruct Hvy as [->| ->]; solve_ball_ok.
  - solve_ball_ok.
Qed.

Lemma ball_paddle_table s : same_table s (ball_paddle s).
Proof.
  split; [apply ball_paddle_bricks|].
  split; [apply ball_paddle_bricks|apply ball_paddle_controls].
Qed.

Lemma ball_paddle_ok s :
  ball_ok 8 125 s →
  ball_ok 8 125 (ball_paddle s) ∧ ball_state (ball_paddle s) = ball_state s.
Proof.
  destruct (ball_paddle_shape s) as [->| ->]; [done|].
  destruct s as [fc px bx by_ vx vy st ib pi sc lv bl br].
  unfold ball_ok. cbn. intros (Hvx & Hvy & Hx & Hy).
  unfold paddle_bounce. cbn. unfold_consts.
  destruct Hvx as [->|[-> Hev]]; destruct Hvy as [->| ->]; cbn;
    (split; [solve_ball_ok|done]).
Qed.

Lemma brick_hit_ok i b s :
  ball_ok 8 125 s →
  ball_ok 8 125 (brick_hit i b s)
  ∧ ball_state (brick_hit i b s) = ball_state s
  ∧ ball_vy (brick_hit i b s) = - ball_vy s.
Proof.
  destruct s as [fc px bx by_ vx vy st ib pi sc lv bl br].
  unfold ball_ok. cbn. intros (Hvx & Hvy & Hx & Hy).
  destruct Hvy as [->| ->]; cbn; (split; [solve_ball_ok|done]).
Qed.

Lemma ball_lost_inv s : table_inv s → play_inv (ball_lost s).
Proof.
  intros (Hlen & Hc & Hsum & Hl & Hp). split; [|by left].
  split_inv; try done. apply u8_range.
Qed.

Lemma brick_hit_score s i b :
  array_intact s → counter_exact s → score s + bricks_left s = 48 →
  bricks s !! i = Some b → Brick.active b ≠ 0 →
  score (brick_hit i b s) = score s + 1
  ∧ score (brick_hit i b s) + bricks_left (brick_hit i b s) = 48.
Proof.
  intros Hlen Hc Hsum Hlk Hact.
  destruct (brick_hit_counter s i b Hlen Hc Hlk Hact) as (Hbl & Hpos & _).
  assert (Hsc : score (brick_hit i b s) = score s + 1).
  { cbn -[u16]. apply u16_small. lia. }
  split; [done|]. lia.
Qed.

Lemma brick_hit_table s i b :
  table_inv s → bricks s !! i = Some b → Brick.active b ≠ 0 →
  table_inv (brick_hit i b s).
Proof.
  intros (Hlen & Hc & Hsum & Hl & Hp) Hlk Hact.
  destruct (brick_hit_counter s i b Hlen Hc Hlk Hact) as (_ & _ & Hc' & Hlen').
  destruct (brick_hit_score s i b Hlen Hc Hsum Hlk Hact) as [_ Hsum'].
  by split_inv.
Qed.

Lemma ball_bricks_inv s :
  table_inv s → ball_state s = 1 → ball_ok 8 125 s →
  play_inv (ball_bricks s).
Proof.
  intros Ht Hs Hok.
  destruct (ball_bricks_spec s (proj1 Ht))
    as [[-> _]|(i & b & (Hlk & [Hact _] & _) & ->)].
  - split; [done|by right].
  - destruct (brick_hit_ok i b s Hok) as (Hok' & Hs' & _).
    split; [by apply brick_hit_table|].
    right. split; [congruence|done].
Qed.

(** [update_ball] by cases, for a ball in flight. *)
Lemma update_ball_active s :
  ball_state s ≠ 0 →
  match ball_top_bottom (ball_side_walls (ball_move s)) with
  | Return r => update_ball s = r ∧ brick_loop_entry s = None
  | Next m =>
      if outside_brick_area (ball_paddle m)
      then update_ball s = ball_paddle m ∧ brick_loop_entry s = None
      else update_ball s = ball_bricks (ball_paddle m)
           ∧ brick_loop_entry s = Some (ball_paddle m)
  end.
Proof.
  intros Hs. apply Z.eqb_neq in Hs.
  unfold update_ball, brick_loop_entry, ball_flight, ball_on_paddle.
  rewrite Hs. cbn [and_then].
  destruct (ball_top_bottom _) as [r|m]; cbn [and_then outcome]; [done|].
  unfold ball_brick_area.
  by destruct (outside_brick_area _).
Qed.

(** The ball part of a frame, for a resting ball. *)
Lemma update_ball_resting_same s :
  ball_state s = 0 → same_table s (update_ball s).
Proof.
  intros Hs. split; [|split; [|apply update_ball_controls]];
    rewrite update_ball_resting by done;
    cbn -[held]; by destruct (_ && _).
Qed.

Lemma update_ball_resting_inv s :
  ball_state s = 0 → paddle_even s → ball_inv s →
  ball_inv (update_ball s).
Proof.
  intros Hs [Hb He] [[_ Hy]|[Hs1 _]]; [|congruence].
  rewrite update_ball_resting by done.
  destruct s as [fc px bx by_ vx vy st ib pi sc lv bl br].
  cbn -[held u8] in *. unfold_consts.
  change ((24 - 3) ÷ 2) with 10. rewrite u8_small by lia.
  destruct (_ && _); cbn; [right|left]; [|done].
  split; [done|]. subst. solve_ball_ok.
Qed.

Lemma update_ball_inv s : play_inv s → play_inv (update_ball s).
Proof.
  intros [Ht Hb].
  destruct (decide (ball_state s = 0)) as [Hs|Hs].
  { split.
    - eapply same_table_inv; [by apply update_ball_resting_same|done].
    - apply update_ball_resting_inv; [done| |done]. apply Ht. }
  destruct Hb as [[Hs0 _]|[Hs1 Hok]]; [done|].
  pose proof (update_ball_active s Hs) as Hu.
  pose proof (ball_top_bottom_ok _ (ball_move_walls_ok s Hok)) as Htb.
  pose proof (same_table_inv _ _ (ball_move_walls_table s) Ht) as Htw.
  assert (Hsw : ball_state (ball_side_walls (ball_move s)) = 1).
  { destruct (ball_side_walls_rest s) as (_ & _ & _ & _ & -> & _). done. }
  destruct (ball_top_bottom (ball_side_walls (ball_move s))) as [r|m].
  { destruct Hu as [-> _]. subst r. by apply ball_lost_inv. }
  destruct Htb as (Hokm & Hsm & Htm).
  pose proof (same_table_inv _ _ Htm Htw) as Htm'.
  pose proof (same_table_inv _ _ (ball_paddle_table m) Htm') as Htp.
  destruct (ball_paddle_ok m Hokm) as [Hokp Hsp].
  assert (Hst : ball_state (ball_paddle m) = 1) by congruence.
  destruct (outside_brick_area (ball_paddle m)); destruct Hu as [-> _].
  - split; [done|by right].
  - by apply ball_bricks_inv.
Qed.

Lemma before_ball_play_inv pad s : play_inv s → play_inv (before_ball pad s).
Proof.
  intros [(Hlen & Hc & Hsum & Hl & Hp) Hb].
  pose proof (update_paddle_even (read_input pad s) Hp) as Hp'.
  unfold before_ball. rewrite update_paddle_only_paddle in *.
  split; [by split_inv|done].
Qed.

Lemma frame_inv pad s : play_inv s → play_inv (frame pad s).
Proof.
  intros H. apply (before_ball_play_inv pad), update_ball_inv in H.
  destruct H as [(Hlen' & Hc' & Hsum' & Hl' & Hp') Hb'].
  unfold frame, update_game. split; [by split_inv|done].
Qed.

Lemma start_inv : play_inv start.
Proof.
  destruct (init_game_counter boot) as [Hc Hlen]; [done|].
  split; [split_inv|left].
  - exact Hlen.
  - exact Hc.
  - rewrite start_value. reflexivity.
  - rewrite start_value. cbn. lia.
  - unfold paddle_even. rewrite start_value. cbn. split; [lia|reflexivity].
  - rewrite start_value. by split.
Qed.

Lemma reachable_inv s : reachable s → play_inv s.
Proof.
  induction 1 as [|pad s _ _ IH]; [apply start_inv | by apply frame_inv].
Qed.

Lemma before_ball_inv pad s : reachable s → play_inv (before_ball pad s).
Proof. intros H. by apply before_ball_play_inv, reachable_inv. Qed.

Lemma pad_bytes_held_for l :
  Forall (λ e, 0 ≤ e.1 < 256) l → pad_bytes (held_for l).
Proof.
  unfold pad_bytes, held_for. induction 1 as [|[pad n] l Hpad _ IH]; cbn.
  - constructor.
  - apply Forall_app. split; [|done]. by apply Forall_replicate.
Qed.

Ltac pad_bytes_run :=
  apply pad_bytes_held_for; repeat constructor; cbn; lia.

Lemma brick_counter_invariant_witness :
  counter_exact (init_game boot)
  ∧ counter_exact (update_ball start)
  ∧ counter_exact (run low_ball).
Proof.
  destruct brick_counter_invariant as (Hinit & Hstart & _ & Hball & Hreach).
  split; [|split].
  - apply Hinit. reflexivity.
  - apply Hball; [|exact Hstart]. apply (init_game_counter boot). reflexivity.
  - apply Hreach, reachable_run. unfold low_ball. pad_bytes_run.
Defined.

(** ** The left wall *)

(** C5: in every frame of a game in which the ball is in flight and its
    x plus its signed vx, as integers, is at most 0, the left-wall branch
    is the one taken: vx is negated and x becomes 1.  (In a game the ball
    moves left only on even columns, so the sum is then exactly 0.) *)
Theorem left_wall_reflects s pad :
  reachable s →
  ball_state (before_ball pad s) = 1 →
  ball_x (before_ball pad s) + ball_vx (before_ball pad s) ≤ 0 →
  side_hit (ball_move (before_ball pad s)) = HitLeft
  ∧ ball_vx (ball_side_walls (ball_move (before_ball pad s)))
    = - ball_vx (before_ball pad s)
  ∧ ball_x (ball_side_walls (ball_move (before_ball pad s))) = 1.
Proof.
  intros Hr Hs Hsum.
  destruct (before_ball_inv pad s Hr) as [_ [[Hs0 _]|[_ Hok]]]; [congruence|].
  destruct (before_ball pad s) as [fc px bx by_ vx vy st ib pi sc lv bl br].
  unfold ball_ok in Hok. cbn in *. destruct Hok as (Hvx & Hvy & Hx & Hy).
  destruct Hvx as [->|[-> Hev]]; [lia|].
  assert (bx = 2) as -> by parity.
  by repeat split.
Qed.

Lemma left_wall_reflects_witness :
  (ball_x at_left_wall = 2 ∧ ball_vx at_left_wall = -2)
  ∧ side_hit (ball_move at_left_wall) = HitLeft
  ∧ ball_vx (ball_side_walls (ball_move at_left_wall)) = 2
  ∧ ball_x (ball_side_walls (ball_move at_left_wall)) = 1.
Proof.
  split; [split; vm_compute; reflexivity|].
  assert (Hr : reachable (run left_wall_run))
    by (apply reachable_run; unfold left_wall_run; pad_bytes_run).
  assert (Hs : ball_state (before_ball 0xFF (run left_wall_run)) = 1)
    by (vm_compute; reflexivity).
  assert (Hsum : ball_x (before_ball 0xFF (run left_wall_run))
                 + ball_vx (before_ball 0xFF (run left_wall_run)) ≤ 0)
    by (vm_compute; discriminate).
  destruct (left_wall_reflects (run left_wall_run) 0xFF Hr Hs Hsum)
    as (H1 & H2 & H3).
  split; [exact H1|]. split; [|exact H3].
  etransitivity; [exact H2|]. vm_compute. reflexivity.
Defined.

(** Outside a game the test [ball_x == 0] can miss the wall: from column
    1 the byte wraps to 255 and the right-wall branch is taken.  No game
    reaches such a state. *)
Lemma left_wall_odd_column :
  side_hit (ball_move (mkGame 0 52 1 50 (-2) 2 1 0 0 0 3 48 [])) = HitRight
  ∧ ¬ reachable (mkGame 0 52 1 50 (-2) 2 1 0 0 0 3 48 []).
Proof.
  split; [reflexivity|].
  intros [_ [[H _]|[_ ([H|[_ H]] & _)]]]%reachable_inv; discriminate.
Qed.

(** ** Destroying a brick *)

Lemma brick_loop_entry_ok s m :
  play_inv s → brick_loop_entry s = Some m →
  update_ball s = ball_bricks m
  ∧ table_inv m ∧ ball_state m = 1 ∧ ball_ok 8 125 m ∧ same_table s m.
Proof.
  intros [Ht Hb] He.
  pose proof (update_ball_by_entry s) as Hu. rewrite He in Hu.
  destruct Hu as (Hup & _ & _ & Hs).
  destruct Hb as [[Hs0 _]|[Hs1 Hok]]; [done|].
  pose proof (update_ball_active s Hs) as Ha.
  pose proof (ball_top_bottom_ok _ (ball_move_walls_ok s Hok)) as Htb.
  pose proof (ball_move_walls_table s) as Htw.
  assert (Hsw : ball_state (ball_side_walls (ball_move s)) = 1).
  { destruct (ball_side_walls_rest s) as (_ & _ & _ & _ & -> & _). done. }
  destruct (ball_top_bottom (ball_side_walls (ball_move s))) as [r|m'].
  { destruct Ha as [_ Ha]. congruence. }
  destruct Htb as (Hokm & Hsm & Htm).
  destruct (ball_paddle_ok m' Hokm) as [Hokp Hsp].
  destruct (outside_brick_area (ball_paddle m')); destruct Ha as [_ Ha];
    [congruence|].
  assert (m = ball_paddle m') as -> by congruence.
  assert (Hsame : same_table s (ball_paddle m')).
  { eapply same_table_trans; [exact Htw|].
    eapply same_table_trans; [exact Htm|apply ball_paddle_table]. }
  split; [done|]. split; [by eapply same_table_inv|].
  split; [congruence|]. by split.
Qed.

Lemma before_ball_bricks pad s : same_bricks s (before_ball pad s).
Proof.
  unfold before_ball. rewrite update_paddle_only_paddle. by repeat split.
Qed.

Lemma frame_fields pad s :
  bricks (frame pad s) = bricks (update_ball (before_ball pad s))
  ∧ ball_vy (frame pad s) = ball_vy (update_ball (before_ball pad s))
  ∧ score (frame pad s) = score (update_ball (before_ball pad s))
  ∧ bricks_left (frame pad s) = bricks_left (update_ball (before_ball pad s)).
Proof. by repeat split. Qed.

(** X25: inside the brick loop.  In every frame of a game in which the
    ball is in flight, reaches the brick loop (so its y passed the
    pre-filter), and overlaps some active brick there, exactly one brick
    is destroyed: the first colliding brick in array order (row by row,
    index ascending) gets its active flag cleared, every other brick is as
    before, vy is negated, the score goes up by exactly 1 and the brick
    counter, like the number of active bricks, down by exactly 1. *)
Theorem first_brick_destroyed s pad m :
  reachable s →
  ball_state s = 1 →
  brick_loop_entry (before_ball pad s) = Some m →
  (∃ j bj, bricks m !! j = Some bj ∧ collides m bj) →
  ∃ i b,
    first_collision m i b
    ∧ bricks s !! i = Some b
    ∧ bricks (frame pad s) = <[i := Brick.set_active 0 b]> (bricks s)
    ∧ bricks (frame pad s) !! i = Some (Brick.set_active 0 b)
    ∧ (∀ j, j ≠ i → bricks (frame pad s) !! j = bricks s !! j)
    ∧ ball_vy (frame pad s) = - ball_vy m
    ∧ score (frame pad s) = score s + 1
    ∧ bricks_left (frame pad s) = bricks_left s - 1
    ∧ S (count_active (bricks (frame pad s))) = count_active (bricks s).
Proof.
  intros Hr Hs He (j & bj & Hj & Hcj).
  destruct (brick_loop_entry_ok _ _ (before_ball_inv pad s Hr) He)
    as (Hup & Htm & Hsm & Hokm & (Hsame & _)).
  pose proof (same_bricks_trans _ _ _ (before_ball_bricks pad s) Hsame)
    as (Hbr & Hbl & Hsc).
  destruct Htm as (Hlen & Hc & Hsum & _).
  destruct (ball_bricks_spec m Hlen) as [[_ Hnone]|(i & b & Hfirst & Hhit)].
  { destruct (Hnone j bj Hj Hcj). }
  pose proof Hfirst as (Hlk & [Hact _] & _).
  destruct (brick_hit_counter m i b Hlen Hc Hlk Hact) as (Hleft & _).
  destruct (brick_hit_score m i b Hlen Hc Hsum Hlk Hact) as [Hscore _].
  destruct (brick_hit_ok i b m Hokm) as (_ & _ & Hvy).
  destruct (frame_fields pad s) as (-> & -> & -> & ->).
  rewrite Hup, Hhit, Hleft, Hscore, Hvy, <- Hbr, Hbl, Hsc.
  change (bricks (brick_hit i b m)) with (<[i:=Brick.set_active 0 b]> (bricks m)).
  exists i, b. split; [done|]. split; [done|]. split; [done|].
  split; [apply list_lookup_insert_eq; by eapply lookup_lt_Some|].
  split; [intros k Hk; by apply list_lookup_insert_ne|].
  split; [done|]. split; [done|]. split; [done|].
  symmetry. by apply count_active_deactivate.
Qed.

Lemma first_brick_destroyed_witness :
  (∃ m, brick_loop_entry over_seam = Some m
        ∧ (∃ b, bricks m !! 46%nat = Some b ∧ collides m b)
        ∧ (∃ b, bricks m !! 47%nat = Some b ∧ collides m b))
  ∧ ∃ i b,
      bricks (run seam_run) !! i = Some b
      ∧ bricks (frame 0xFF (run seam_run))
        = <[i := Brick.set_active 0 b]> (bricks (run seam_run))
      ∧ score (frame 0xFF (run seam_run)) = score (run seam_run) + 1.
Proof.
  assert (He : brick_loop_entry (before_ball 0xFF (run seam_run))
               = Some (mkGame 36 42 114 49 2 (-2) 1 0 0 0 3 48 (bricks start)))
    by (vm_compute; reflexivity).
  assert (H46 : collides (mkGame 36 42 114 49 2 (-2) 1 0 0 0 3 48 (bricks start))
                  (Brick.mk 100 45 6 1))
    by (vm_compute; repeat split; discriminate).
  assert (H47 : collides (mkGame 36 42 114 49 2 (-2) 1 0 0 0 3 48 (bricks start))
                  (Brick.mk 116 45 6 1))
    by (vm_compute; repeat split; discriminate).
  split.
  { eexists. split; [exact He|].
    split; [exists (Brick.mk 100 45 6 1) | exists (Brick.mk 116 45 6 1)];
      (split; [vm_compute; reflexivity | assumption]). }
  assert (Hr : reachable (run seam_run))
    by (apply reachable_run; unfold seam_run; pad_bytes_run).
  assert (Hs : ball_state (run seam_run) = 1) by (vm_compute; reflexivity).
  destruct (first_brick_destroyed (run seam_run) 0xFF _ Hr Hs He)
    as (i & b & _ & Hlk & Hbr & _ & _ & _ & Hsc & _).
  { exists 46%nat, (Brick.mk 100 45 6 1). split; [|exact H46].
    vm_compute. reflexivity. }
  exists i, b. split; [exact Hlk|]. split; [exact Hbr|exact Hsc].
Defined.

(** The tie at the seam goes to the lower index: brick 46 is cleared and
    brick 47, which the ball overlaps as well, stays. *)
Lemma seam_tie_break :
  Brick.active <$> bricks (frame 0xFF (run seam_run)) !! 46%nat = Some 0
  ∧ Brick.active <$> bricks (frame 0xFF (run seam_run)) !! 47%nat = Some 1
  ∧ bricks_left (frame 0xFF (run seam_run)) = 47.
Proof. vm_compute. by repeat split. Qed.

(** ** The pre-filter *)

(** C9 fails on the code: 602 frames into [prefilter_run] the ball is in
    flight at (98, 9) after the paddle test and overlaps the active brick
    5 at (84, 10).  [update_ball] returns at the pre-filter, since 9 <
    BRICK_START_Y, and leaves all 9 bricks; the variant that always scans
    destroys brick 5. *)
Lemma prefilter_hides_collision :
  reachable (run prefilter_run)
  ∧ ball_state under_top_row = 1
  ∧ match ball_flight under_top_row with
    | Next m =>
        ball_x (ball_paddle m) = 98 ∧ ball_y (ball_paddle m) = 9
        ∧ outside_brick_area (ball_paddle m) = true
        ∧ bricks (ball_paddle m) !! 5%nat = Some (Brick.mk 84 10 1 1)
        ∧ collides (ball_paddle m) (Brick.mk 84 10 1 1)
    | Return _ => False
    end
  ∧ bricks_left (update_ball under_top_row) = 9
  ∧ bricks_left (update_ball_scan_always under_top_row) = 8
  ∧ score (update_ball under_top_row) = 39
  ∧ score (update_ball_scan_always under_top_row) = 40
  ∧ ball_vy (update_ball under_top_row) = -2
  ∧ ball_vy (update_ball_scan_always under_top_row) = 2
  ∧ update_ball under_top_row ≠ update_ball_scan_always under_top_row.
Proof.
  split; [apply reachable_run; unfold prefilter_run; pad_bytes_run|].
  split; [vm_compute; reflexivity|].
  split; [vm_compute; repeat split; discriminate|].
  assert (H9 : bricks_left (update_ball under_top_row) = 9)
    by (vm_compute; reflexivity).
  assert (H8 : bricks_left (update_ball_scan_always under_top_row) = 8)
    by (vm_compute; reflexivity).
  split; [exact H9|]. split; [exact H8|].
  split; [vm_compute; reflexivity|]. split; [vm_compute; reflexivity|].
  split; [vm_compute; reflexivity|]. split; [vm_compute; reflexivity|].
  intros Heq. rewrite Heq, H8 in H9. clear Heq. lia.
Qed.

(** C1 fails on the code, by the same pre-filter: in the frame after
    [prefilter_run] the ball is in flight and, when the brick collision is
    due, its rectangle at (98, 9) overlaps the rectangle of the active
    brick 5 at (84, 10), the only active brick it overlaps.  The frame
    destroys no brick: brick 5 is still active, the array, the score (39)
    and the counter (9) are as before, and vy is still -2. *)
Theorem overlap_without_destruction :
  reachable (run prefilter_run)
  ∧ ball_state (run prefilter_run) = 1
  ∧ match ball_flight under_top_row with
    | Next m =>
        ball_state (ball_paddle m) = 1
        ∧ (ball_x (ball_paddle m) = 98 ∧ ball_y (ball_paddle m) = 9
           ∧ ball_vy (ball_paddle m) = -2)
        ∧ bricks (ball_paddle m) !! 5%nat = Some (Brick.mk 84 10 1 1)
        ∧ collides (ball_paddle m) (Brick.mk 84 10 1 1)
        ∧ first_collision (ball_paddle m) 5 (Brick.mk 84 10 1 1)
    | Return _ => False
    end
  ∧ bricks (frame 0xFF (run prefilter_run)) = bricks (run prefilter_run)
  ∧ bricks (frame 0xFF (run prefilter_run)) !! 5%nat
    = Some (Brick.mk 84 10 1 1)
  ∧ (score (run prefilter_run) = 39
     ∧ score (frame 0xFF (run prefilter_run)) = 39)
  ∧ (bricks_left (run prefilter_run) = 9
     ∧ bricks_left (frame 0xFF (run prefilter_run)) = 9)
  ∧ count_active (bricks (frame 0xFF (run prefilter_run))) = 9%nat
  ∧ ball_vy (frame 0xFF (run prefilter_run)) = -2.
Proof.
  split; [apply reachable_run; unfold prefilter_run; pad_bytes_run|].
  split; [vm_compute; reflexivity|].
  split.
  { destruct (ball_flight under_top_row) as [r|m] eqn:Hf;
      vm_compute in Hf; [discriminate Hf|].
    injection Hf as <-.
    split; [vm_compute; reflexivity|].
    split; [repeat split; vm_compute; reflexivity|].
    split; [vm_compute; reflexivity|].
    split; [vm_compute; repeat split; intros H; discriminate H|].
    split; [vm_compute; reflexivity|].
    split; [vm_compute; repeat split; intros H; discriminate H|].
    intros j b' Hj Hlk' Hc.
    do 5 (destruct j as [|j];
          [vm_compute in Hlk'; injection Hlk' as <-; vm_compute in Hc;
           destruct Hc as [_ [[Hx _] _]]; discriminate Hx|]).
    lia. }
  split; [vm_compute; reflexivity|].
  split; [vm_compute; reflexivity|].
  split; [split; vm_compute; reflexivity|].
  split; [split; vm_compute; reflexivity|].
  split; vm_compute; reflexivity.
Qed.

(** * Further properties of the program *)

(** ** Initialisation *)

Lemma start_grid n :
  (n < 48)%nat → bricks start !! n = Some (grid_brick (Z.of_nat n)).
Proof. intros Hn. do 48 (destruct n as [|n]; [reflexivity|]). lia. Qed.

(** X1: [init_bricks] lays the bricks out on the grid whatever the array
    held before: entry [idx] is at column [idx mod 8] and row [idx / 8],
    that is at x = 16 * column + 4 and y = 7 * row + 10, has the colour
    index row + 1 (between 1 and 6) and is active; the counter is 48. *)
Theorem init_bricks_grid s idx :
  array_intact s → 0 ≤ idx < TOTAL_BRICKS →
  bricks (init_bricks s) !! Z.to_nat idx = Some (grid_brick idx)
  ∧ 1 ≤ Brick.color (grid_brick idx) ≤ BRICK_ROWS
  ∧ length (bricks (init_bricks s)) = Z.to_nat TOTAL_BRICKS
  ∧ bricks_left (init_bricks s) = TOTAL_BRICKS.
Proof.
  intros Hlen Hidx. destruct (init_bricks_any s Hlen) as [-> ->].
  split; [|split; [|by split]].
  - rewrite <- (Z2Nat.id idx) at 2 by lia. apply start_grid.
    unfold TOTAL_BRICKS, BRICK_ROWS, BRICK_COLS in Hidx. lia.
  - unfold grid_brick, TOTAL_BRICKS, BRICK_ROWS, BRICK_COLS in *. cbn.
    Z.div_mod_to_equations. lia.
Qed.

Lemma init_bricks_grid_witness :
  bricks (init_bricks boot) !! 13%nat = Some (Brick.mk 84 17 2 1).
Proof.
  apply (proj1 (init_bricks_grid boot 13 eq_refl
                  ltac:(unfold TOTAL_BRICKS, BRICK_ROWS, BRICK_COLS; lia))).
Defined.

(** X2: [init_game] writes every game variable, so restarting from any
    state (with its 48-entry array) gives the state of a fresh game. *)
Theorem init_game_restart s : array_intact s → init_game s = start.
Proof.
  intros Hlen. unfold start, init_game.
  match goal with
  | |- init_bricks ?g = init_bricks ?g' =>
      destruct (init_bricks_any g Hlen) as [Hb Hl];
      destruct (init_bricks_any g' eq_refl) as [Hb' Hl'];
      assert (Hrest : init_bricks g = set_bricks (bricks (init_bricks g))
                        (set_bricks_left (bricks_left (init_bricks g)) g));
      [|assert (Hrest' : init_bricks g' = set_bricks (bricks (init_bricks g'))
                        (set_bricks_left (bricks_left (init_bricks g')) g'))]
  end.
  - unfold array_intact in Hlen.
    destruct s as [fc px bx by_ vx vy st ib pi sc lv bl br]. cbn in Hlen.
    do 48 (destruct br as [|? br]; [done|]). destruct br; [|done].
    reflexivity.
  - reflexivity.
  - rewrite Hrest, Hrest', Hb, Hl, Hb', Hl'. reflexivity.
Qed.

Lemma init_game_restart_witness :
  init_game (run low_ball) = start.
Proof.
  apply init_game_restart.
  apply reachable_counter, reachable_run. unfold low_ball. pad_bytes_run.
Defined.

(** ** The bricks over a game *)

Lemma brick_loop_hit fuel : ∀ idx s,
  brick_loop fuel idx s = s
  ∨ ∃ i b, bricks s !! i = Some b ∧ Brick.active b ≠ 0
           ∧ brick_loop fuel idx s = brick_hit i b s.
Proof.
  induction fuel as [|fuel IH]; intros idx s; cbn [brick_loop]; [by left|].
  destruct (bricks s !! idx) as [b|] eqn:Hb; [|by left].
  destruct (Brick.active b =? 0) eqn:Ha; [apply IH|].
  destruct (x_apart s b); [apply IH|].
  destruct (y_apart s b); [apply IH|].
  right. exists idx, b. by apply Z.eqb_neq in Ha.
Qed.

Lemma update_ball_hit s :
  same_bricks s (update_ball s)
  ∨ ∃ m i b, same_bricks s m ∧ bricks m !! i = Some b ∧ Brick.active b ≠ 0
             ∧ update_ball s = brick_hit i b m.
Proof.
  pose proof (update_ball_by_entry s) as H.
  destruct (brick_loop_entry s) as [m|]; [|by left].
  destruct H as (-> & Hsame & _). unfold ball_bricks.
  destruct (brick_loop_hit (Z.to_nat TOTAL_BRICKS) 0 m)
    as [->|(i & b & Hlk & Hact & ->)]; [by left|].
  right. by exists m, i, b.
Qed.

(** X3: a frame changes the bricks in at most one place, whatever the
    state: either bricks, score and counter are as before, or one brick
    that was active is cleared, the score is incremented (16 bits) and
    the counter decremented (8 bits). *)
Theorem frame_one_brick pad s :
  (bricks (frame pad s) = bricks s ∧ score (frame pad s) = score s
   ∧ bricks_left (frame pad s) = bricks_left s)
  ∨ ∃ i b,
      bricks s !! i = Some b ∧ Brick.active b ≠ 0
      ∧ bricks (frame pad s) = <[i := Brick.set_active 0 b]> (bricks s)
      ∧ score (frame pad s) = u16 (score s + 1)
      ∧ bricks_left (frame pad s) = u8 (bricks_left s - 1).
Proof.
  destruct (frame_fields pad s) as (-> & _ & -> & ->).
  pose proof (before_ball_bricks pad s) as Hb.
  destruct (update_ball_hit (before_ball pad s))
    as [Hsame|(m & i & b & Hsame & Hlk & Hact & ->)].
  - left. by destruct (same_bricks_trans _ _ _ Hb Hsame) as (-> & -> & ->).
  - right. exists i, b.
    destruct (same_bricks_trans _ _ _ Hb Hsame) as (Hbr & Hbl & Hsc).
    rewrite <- Hbr, <- Hsc, <- Hbl. by repeat split.
Qed.

Lemma worn_refl b : worn b b.
Proof. repeat split. by left. Qed.

Lemma worn_trans a b c : worn a b → worn b c → worn a c.
Proof.
  intros (Hx & Hy & Hc & Ha) (Hx' & Hy' & Hc' & Ha').
  repeat split; try congruence. destruct Ha' as [->| ->]; auto.
Qed.

Lemma worn_list_refl (l : list Brick.t) : Forall2 worn l l.
Proof. induction l; constructor; auto using worn_refl. Qed.

Lemma worn_list_trans (l1 l2 l3 : list Brick.t) :
  Forall2 worn l1 l2 → Forall2 worn l2 l3 → Forall2 worn l1 l3.
Proof.
  intros H. revert l3. induction H as [|a b l1 l2 Hab _ IH]; intros l3 H3.
  - by inversion H3.
  - inversion H3 as [|? c ? l3' Hbc Hrest]; subst. constructor.
    + by eapply worn_trans.
    + by apply IH.
Qed.

Lemma worn_list_insert (l : list Brick.t) : ∀ i b,
  l !! i = Some b → Forall2 worn l (<[i := Brick.set_active 0 b]> l).
Proof.
  induction l as [|a l IH]; intros [|i] b Hlk; try done; cbn in *.
  - injection Hlk as ->. constructor; [|apply worn_list_refl].
    repeat split. by right.
  - constructor; [apply worn_refl|by apply IH].
Qed.

Lemma frame_worn pad s : Forall2 worn (bricks s) (bricks (frame pad s)).
Proof.
  destruct (frame_fields pad s) as (-> & _).
  pose proof (before_ball_bricks pad s) as (Hb & _).
  destruct (update_ball_hit (before_ball pad s))
    as [(-> & _)|(m & i & b & (Hm & _) & Hlk & Hact & ->)].
  - rewrite Hb. apply worn_list_refl.
  - change (bricks (brick_hit i b m))
      with (<[i:=Brick.set_active 0 b]> (bricks m)).
    rewrite <- Hb, <- Hm. by apply worn_list_insert.
Qed.

Lemma reachable_worn s : reachable s → Forall2 worn (bricks start) (bricks s).
Proof.
  induction 1 as [|pad s _ _ IH]; [apply worn_list_refl|].
  eapply worn_list_trans; [exact IH|apply frame_worn].
Qed.

Lemma reachable_grid s n b :
  reachable s → bricks s !! n = Some b →
  (n < 48)%nat ∧ worn (grid_brick (Z.of_nat n)) b.
Proof.
  intros Hr Hlk. pose proof (reachable_worn s Hr) as Hw.
  destruct (reachable_counter s Hr) as [_ Hlen].
  assert (Hn : (n < 48)%nat).
  { apply lookup_lt_Some in Hlk. by rewrite Hlen in Hlk. }
  split; [done|].
  rewrite Forall2_lookup in Hw. specialize (Hw n).
  rewrite (start_grid n Hn), Hlk in Hw. by inversion Hw.
Qed.

(** X4: bricks stay where [init_bricks] put them and are never
    re-activated.  Over any frame each brick keeps position and colour and
    its flag is kept or cleared; in every state of a game brick [n] is at
    its grid position with its row colour, and is either active (flag 1)
    or destroyed (flag 0). *)
Theorem bricks_keep_place :
  (∀ pad s, Forall2 worn (bricks s) (bricks (frame pad s)))
  ∧ (∀ s n b, reachable s → bricks s !! n = Some b →
       Brick.x b = Z.of_nat n mod 8 * 16 + 4
       ∧ Brick.y b = Z.of_nat n / 8 * 7 + 10
       ∧ Brick.color b = Z.of_nat n / 8 + 1
       ∧ (Brick.active b = 1 ∨ Brick.active b = 0)).
Proof.
  split; [apply frame_worn|].
  intros s n b Hr Hlk.
  destruct (reachable_grid s n b Hr Hlk) as (_ & Hx & Hy & Hc & Ha).
  by repeat split.
Qed.

Lemma bricks_keep_place_witness :
  (∃ b, bricks (run low_ball) !! 47%nat = Some b
        ∧ Brick.x b = 116 ∧ Brick.y b = 45 ∧ Brick.color b = 6
        ∧ Brick.active b = 0).
Proof.
  exists (Brick.mk 116 45 6 0).
  assert (Hlk : bricks (run low_ball) !! 47%nat = Some (Brick.mk 116 45 6 0))
    by (vm_compute; reflexivity).
  assert (Hr : reachable (run low_ball))
    by (apply reachable_run; unfold low_ball; pad_bytes_run).
  destruct (proj2 bricks_keep_place _ _ _ Hr Hlk) as (Hx & Hy & Hc & _).
  split; [exact Hlk|]. split; [exact Hx|]. split; [exact Hy|].
  split; [exact Hc|reflexivity].
Defined.

(** X5: no two bricks of a game overlap. *)
Theorem bricks_disjoint s i j bi bj :
  reachable s → i ≠ j →
  bricks s !! i = Some bi → bricks s !! j = Some bj →
  ¬ bricks_overlap bi bj.
Proof.
  intros Hr Hne Hi Hj.
  destruct (reachable_grid s i bi Hr Hi) as (Hni & Hxi & Hyi & _).
  destruct (reachable_grid s j bj Hr Hj) as (Hnj & Hxj & Hyj & _).
  unfold bricks_overlap. rewrite Hxi, Hyi, Hxj, Hyj.
  unfold grid_brick. cbn. unfold_consts. unfold BRICK_COLS, BRICK_SPACING_X,
    BRICK_START_X.
  assert (Z.of_nat i ≠ Z.of_nat j) by lia.
  Z.div_mod_to_equations. lia.
Qed.

Lemma bricks_disjoint_witness :
  ¬ bricks_overlap (Brick.mk 100 45 6 1) (Brick.mk 116 45 6 1).
Proof.
  assert (Hr : reachable (run seam_run))
    by (apply reachable_run; unfold seam_run; pad_bytes_run).
  apply (bricks_disjoint (run seam_run) 46 47 _ _ Hr); [lia| |];
    vm_compute; reflexivity.
Defined.

(** ** Input *)

Lemma byte_cases (P : Z → bool) :
  forallb P (seqZ 0 256) = true → ∀ z, 0 ≤ z < 256 → P z = true.
Proof.
  intros H z Hz. rewrite forallb_forall in H. apply H.
  apply list_elem_of_In, elem_of_seqZ. lia.
Qed.

(** X6: [read_input] turns the active-low pad byte into the button mask
    255 - pad, so RIGHT, LEFT and A are held exactly when bits 0, 1 and 4
    of the pad byte are clear; the mask it replaces becomes [prev_input],
    and nothing else changes. *)
Theorem read_input_decodes pad s :
  0 ≤ pad < 256 →
  input_buffer (read_input pad s) = 255 - pad
  ∧ held BTN_RIGHT (input_buffer (read_input pad s)) = negb (Z.testbit pad 0)
  ∧ held BTN_LEFT (input_buffer (read_input pad s)) = negb (Z.testbit pad 1)
  ∧ held BTN_A (input_buffer (read_input pad s)) = negb (Z.testbit pad 4)
  ∧ prev_input (read_input pad s) = input_buffer s
  ∧ read_input pad s
    = set_input_buffer (255 - pad) (set_prev_input (input_buffer s) s).
Proof.
  intros Hpad. rewrite !read_input_buttons.
  assert (H : decodes pad = true)
    by (apply byte_cases; [vm_compute; reflexivity|done]).
  unfold decodes in H. tests_to_facts.
  repeat match goal with H : eqb _ _ = true |- _ => apply eqb_prop in H end.
  split; [done|]. split; [done|]. split; [done|]. split; [done|].
  split; [done|]. unfold read_input.
  change (u8 (Z.lxor pad 255)) with (buttons pad). congruence.
Qed.

Lemma read_input_decodes_witness :
  input_buffer (read_input 0xEE start) = 0x11
  ∧ held BTN_RIGHT (input_buffer (read_input 0xEE start)) = true
  ∧ held BTN_LEFT (input_buffer (read_input 0xEE start)) = false
  ∧ held BTN_A (input_buffer (read_input 0xEE start)) = true.
Proof.
  destruct (read_input_decodes 0xEE start ltac:(lia)) as (H1 & H2 & H3 & H4 & _).
  split; [exact H1|]. split; [exact H2|]. split; [exact H3|exact H4].
Defined.

(** ** More on the paddle *)

(** X7: [update_paddle] by cases of the two buttons, for a paddle in
    bounds.  With no button the paddle stays; RIGHT alone or LEFT alone
    moves it by PADDLE_SPEED unless the step is refused; with both held
    the two moves cancel, except that a refused RIGHT step (x ≥ 102) leaves
    the LEFT step alone and the paddle moves left.  Nothing but [paddle_x]
    is written. *)
Theorem update_paddle_cases s :
  paddle_in_bounds s →
  paddle_x (update_paddle s)
  = paddle_step (held BTN_RIGHT (input_buffer s))
                (held BTN_LEFT (input_buffer s)) (paddle_x s)
  ∧ update_paddle s = set_paddle_x (paddle_x (update_paddle s)) s.
Proof.
  intros Hb. split; [|apply update_paddle_only_paddle].
  unfold paddle_in_bounds in Hb. unfold update_paddle, paddle_step.
  unfold_consts.
  destruct (held BTN_RIGHT (input_buffer s)) eqn:Hr.
  - rewrite (u8_small (paddle_x s + 2)) by lia.
    destruct (paddle_x s + 2 <? 128 - 24) eqn:Hlt; tests_to_facts;
      cbn [input_buffer paddle_x set_paddle_x];
      destruct (held BTN_LEFT (input_buffer s)); try done.
    + rewrite (proj2 (Z.leb_le 2 (paddle_x s + 2))) by lia.
      cbn. rewrite u8_small by lia. lia.
    + rewrite (proj2 (Z.leb_le 2 (paddle_x s))) by lia.
      cbn. rewrite u8_small by lia. lia.
  - destruct (held BTN_LEFT (input_buffer s)); [|done].
    destruct (2 <=? paddle_x s) eqn:Hge; tests_to_facts; [|done].
    cbn. apply u8_small. lia.
Qed.

Lemma update_paddle_cases_witness :
  paddle_x (update_paddle
              (mkGame 0 102 0 0 0 0 0 (Z.lor BTN_RIGHT BTN_LEFT) 0 0 0 0 []))
  = 100.
Proof.
  rewrite (proj1 (update_paddle_cases
    (mkGame 0 102 0 0 0 0 0 (Z.lor BTN_RIGHT BTN_LEFT) 0 0 0 0 [])
    ltac:(unfold paddle_in_bounds, SCREEN_WIDTH, PADDLE_WIDTH; cbn; lia))).
  reflexivity.
Defined.

Lemma update_paddle_left s :
  held BTN_RIGHT (input_buffer s) = false →
  held BTN_LEFT (input_buffer s) = true →
  paddle_x (update_paddle s) =
    if PADDLE_SPEED <=? paddle_x s
    then u8 (paddle_x s - PADDLE_SPEED) else paddle_x s.
Proof.
  intros Hr Hl. unfold update_paddle. rewrite Hr. cbn zeta. rewrite Hl.
  by destruct (_ <=? _).
Qed.

Lemma frame_left pad s :
  paddle_in_bounds s → left_only pad →
  paddle_x (frame pad s) =
    if PADDLE_SPEED <=? paddle_x s then paddle_x s - PADDLE_SPEED else paddle_x s.
Proof.
  intros Hb [Hl Hr]. rewrite frame_paddle_x.
  unfold paddle_in_bounds, SCREEN_WIDTH, PADDLE_WIDTH in Hb.
  rewrite update_paddle_left by done.
  change (paddle_x (read_input pad s)) with (paddle_x s). unfold PADDLE_SPEED.
  destruct (2 <=? paddle_x s) eqn:Hge; tests_to_facts; [|done].
  apply u8_small. lia.
Qed.

(** X8: holding LEFT (and not RIGHT) for N frames from an in-bounds [x0]
    gives [max (x0 - N * PADDLE_SPEED) (x0 mod 2)]: the paddle stops at 0
    from an even column and at 1 from an odd one, as a step is taken only
    while [x ≥ PADDLE_SPEED]. *)
Theorem hold_left_frames s pads :
  paddle_in_bounds s → Forall left_only pads →
  paddle_x (run_from s pads)
  = Z.max (paddle_x s - Z.of_nat (length pads) * PADDLE_SPEED)
          (paddle_x s mod 2).
Proof.
  revert s. induction pads as [|pad pads IH]; intros s Hb Hall.
  - cbn. unfold paddle_in_bounds in Hb. unfold_consts. parity.
  - apply Forall_cons in Hall as [Hpad Hall].
    change (run_from s (pad :: pads)) with (run_from (frame pad s) pads).
    rewrite IH by auto using frame_bounds.
    rewrite frame_left by done.
    unfold paddle_in_bounds in Hb. unfold_consts.
    rewrite length_cons, Nat2Z.inj_succ.
    split_tests; tests_to_facts; parity.
Qed.

Lemma hold_left_frames_witness :
  paddle_x (run_from start (replicate 30 0xFD)) = 0.
Proof.
  rewrite (hold_left_frames start (replicate 30 0xFD)).
  - reflexivity.
  - apply start_in_bounds.
  - apply Forall_replicate. by split.
Defined.

(** X9: in every state of a game the paddle stands on an even column
    between 0 and 102; it never reaches 103 or 104, so its right edge
    never goes beyond column 126. *)
Theorem paddle_on_even_columns s :
  reachable s →
  0 ≤ paddle_x s ≤ SCREEN_WIDTH - PADDLE_WIDTH - PADDLE_SPEED
  ∧ paddle_x s mod 2 = 0
  ∧ paddle_x s + PADDLE_WIDTH ≤ SCREEN_WIDTH - PADDLE_SPEED.
Proof.
  intros [(_ & _ & _ & _ & [Hb He]) _]%reachable_inv.
  unfold_consts. repeat split; try done; lia.
Qed.

Lemma paddle_on_even_columns_witness :
  paddle_x (run (replicate 60 0xFE)) = 102
  ∧ paddle_x (run (replicate 60 0xFE)) mod 2 = 0.
Proof.
  split; [vm_compute; reflexivity|].
  apply (paddle_on_even_columns (run (replicate 60 0xFE))).
  apply reachable_run. apply Forall_replicate. lia.
Defined.

(** ** More on the ball *)

(** X10: a resting ball follows the paddle.  After a frame that starts
    with the ball on the paddle, the ball's x is the paddle's new x plus
    (PADDLE_WIDTH - BALL_SIZE) / 2 = 10, launched or not; its y, the
    lives, the score and the bricks are untouched. *)
Theorem resting_ball_follows pad s :
  paddle_in_bounds s → ball_state s = 0 →
  ball_x (frame pad s) = paddle_x (frame pad s) + 10
  ∧ ball_y (frame pad s) = ball_y s
  ∧ lives (frame pad s) = lives s ∧ score (frame pad s) = score s
  ∧ bricks (frame pad s) = bricks s
  ∧ bricks_left (frame pad s) = bricks_left s.
Proof.
  intros Hb Hs.
  destruct (frame_resting_counters pad s Hs) as (-> & -> & -> & ->).
  rewrite frame_paddle_x.
  pose proof (update_paddle_bounds (read_input pad s) Hb) as Hb'.
  unfold paddle_in_bounds in Hb'. unfold_consts.
  unfold frame, update_game.
  rewrite update_ball_resting by by rewrite update_paddle_ball_state.
  cbn -[held u8 update_paddle read_input].
  change ((PADDLE_WIDTH - BALL_SIZE) ÷ 2) with 10.
  destruct (_ && _); cbn -[u8 update_paddle read_input];
    rewrite u8_small by lia; repeat split; try done;
    by rewrite update_paddle_only_paddle.
Qed.

Lemma resting_ball_follows_witness :
  paddle_x (frame 0xFE start) = 54 ∧ ball_x (frame 0xFE start) = 64.
Proof.
  split; [vm_compute; reflexivity|].
  etransitivity;
    [apply (resting_ball_follows 0xFE start start_in_bounds eq_refl)|].
  vm_compute. reflexivity.
Defined.

(** X11: the ball of a game stays in the court.  [ball_state] is 0 or 1;
    a resting ball is at y = 111; a ball in flight moves by exactly two
    pixels per frame on both axes (so never purely vertically), has
    1 ≤ x ≤ 124 and 8 ≤ y ≤ 125, and moves left only on even columns. *)
Theorem ball_stays_in_court s :
  reachable s →
  (ball_state s = 0 ∨ ball_state s = 1)
  ∧ (ball_state s = 0 → ball_y s = PADDLE_Y - BALL_SIZE - 1)
  ∧ (ball_state s = 1 →
     (ball_vx s = 2 ∨ ball_vx s = -2) ∧ (ball_vy s = 2 ∨ ball_vy s = -2)
     ∧ 1 ≤ ball_x s ∧ ball_x s + BALL_SIZE < SCREEN_WIDTH
     ∧ 8 ≤ ball_y s ∧ ball_y s + BALL_SIZE ≤ SCREEN_HEIGHT
     ∧ (ball_vx s = -2 → ball_x s mod 2 = 0)).
Proof.
  intros [_ Hb]%reachable_inv. unfold_consts.
  destruct Hb as [[Hs Hy]|[Hs (Hvx & Hvy & Hx & Hy)]].
  - split; [by left|]. split; [done|]. intros; congruence.
  - split; [by right|]. split; [intros; congruence|]. intros _.
    split; [destruct Hvx as [?|[? _]]; auto|]. split; [done|].
    split; [lia|]. split; [lia|]. split; [lia|]. split; [lia|].
    intros Hneg. destruct Hvx as [?|[_ ?]]; [congruence|done].
Qed.

Lemma ball_stays_in_court_witness :
  ball_state (run left_wall_run) = 1
  ∧ ball_x (run left_wall_run) mod 2 = 0
  ∧ ball_y (run low_ball) + BALL_SIZE ≤ SCREEN_HEIGHT.
Proof.
  assert (Hr : reachable (run left_wall_run))
    by (apply reachable_run; unfold left_wall_run; pad_bytes_run).
  assert (Hr' : reachable (run low_ball))
    by (apply reachable_run; unfold low_ball; pad_bytes_run).
  assert (Hs : ball_state (run left_wall_run) = 1) by (vm_compute; reflexivity).
  assert (Hs' : ball_state (run low_ball) = 1) by (vm_compute; reflexivity).
  split; [exact Hs|]. split.
  - apply (ball_stays_in_court _ Hr); [exact Hs|]. vm_compute. reflexivity.
  - apply (ball_stays_in_court _ Hr'). exact Hs'.
Defined.

(** X12: the right wall.  In every frame of a game in which the ball is
    in flight and x + vx + BALL_SIZE reaches SCREEN_WIDTH, the right-wall
    branch is taken: vx is negated and x becomes SCREEN_WIDTH - BALL_SIZE
    - 1 = 124. *)
Theorem right_wall_reflects s pad :
  reachable s →
  ball_state (before_ball pad s) = 1 →
  SCREEN_WIDTH
  ≤ ball_x (before_ball pad s) + ball_vx (before_ball pad s) + BALL_SIZE →
  side_hit (ball_move (before_ball pad s)) = HitRight
  ∧ ball_vx (ball_side_walls (ball_move (before_ball pad s)))
    = - ball_vx (before_ball pad s)
  ∧ ball_x (ball_side_walls (ball_move (before_ball pad s))) = 124.
Proof.
  intros Hr Hs Hsum.
  destruct (before_ball_inv pad s Hr) as [_ [[Hs0 _]|[_ Hok]]]; [congruence|].
  destruct (before_ball pad s) as [fc px bx by_ vx vy st ib pi sc lv bl br].
  unfold ball_ok in Hok. cbn in *. destruct Hok as (Hvx & Hvy & Hx & Hy).
  unfold_consts.
  destruct Hvx as [->|[-> Hev]]; [|lia].
  unfold ball_side_walls, side_hit, ball_move. cbn -[u8].
  unfold_consts. rewrite !(u8_small (bx + 2)) by lia.
  destruct (bx + 2 =? 0) eqn:H0; tests_to_facts; [lia|].
  destruct (128 <=? bx + 2 + 3) eqn:H1; tests_to_facts; [|lia].
  by repeat split.
Qed.

Lemma right_wall_reflects_witness :
  (ball_x (before_ball 0xFF (run right_wall_run)) = 124
   ∧ ball_vx (before_ball 0xFF (run right_wall_run)) = 2)
  ∧ ball_vx (ball_side_walls (ball_move
               (before_ball 0xFF (run right_wall_run)))) = -2.
Proof.
  split; [split; vm_compute; reflexivity|].
  assert (Hr : reachable (run right_wall_run)).
  { apply reachable_run, Forall_app. split.
    - unfold seam_run. pad_bytes_run.
    - apply Forall_replicate. lia. }
  assert (Hs : ball_state (before_ball 0xFF (run right_wall_run)) = 1)
    by (vm_compute; reflexivity).
  assert (Hsum : SCREEN_WIDTH
                 ≤ ball_x (before_ball 0xFF (run right_wall_run))
                   + ball_vx (before_ball 0xFF (run right_wall_run))
                   + BALL_SIZE)
    by (vm_compute; discriminate).
  destruct (right_wall_reflects _ 0xFF Hr Hs Hsum) as (_ & H2 & _).
  etransitivity; [exact H2|]. vm_compute. reflexivity.
Defined.

Lemma before_ball_ball pad s :
  ball_x (before_ball pad s) = ball_x s ∧ ball_y (before_ball pad s) = ball_y s
  ∧ ball_vx (before_ball pad s) = ball_vx s
  ∧ ball_vy (before_ball pad s) = ball_vy s
  ∧ ball_state (before_ball pad s) = ball_state s
  ∧ lives (before_ball pad s) = lives s.
Proof.
  unfold before_ball. rewrite update_paddle_only_paddle. by repeat split.
Qed.

Lemma frame_ball pad s :
  ball_x (frame pad s) = ball_x (update_ball (before_ball pad s))
  ∧ ball_y (frame pad s) = ball_y (update_ball (before_ball pad s))
  ∧ ball_vx (frame pad s) = ball_vx (update_ball (before_ball pad s))
  ∧ ball_state (frame pad s) = ball_state (update_ball (before_ball pad s))
  ∧ lives (frame pad s) = lives (update_ball (before_ball pad s)).
Proof. by repeat split. Qed.

Lemma ball_bricks_ball s :
  ball_x (ball_bricks s) = ball_x s ∧ ball_y (ball_bricks s) = ball_y s
  ∧ ball_vx (ball_bricks s) = ball_vx s
  ∧ ball_state (ball_bricks s) = ball_state s
  ∧ lives (ball_bricks s) = lives s.
Proof.
  unfold ball_bricks.
  destruct (brick_loop_shape (Z.to_nat TOTAL_BRICKS) 0 s) as [->|(i & b & ->)];
    by repeat split.
Qed.

(** The state at the paddle test of a game's frame. *)
Lemma flight_ok g :
  play_inv g → ball_state g = 1 →
  ball_y (ball_side_walls (ball_move g)) = ball_y g + ball_vy g
  ∧ match ball_top_bottom (ball_side_walls (ball_move g)) with
    | Return r => r = ball_lost (ball_side_walls (ball_move g))
                  ∧ SCREEN_HEIGHT - 2 ≤ ball_y g + ball_vy g
    | Next m =>
        ball_y g + ball_vy g < SCREEN_HEIGHT - 2
        ∧ ball_state (ball_paddle m) = 1
        ∧ ball_ok 8 125 (ball_paddle m)
        ∧ same_table g (ball_paddle m)
    end.
Proof.
  intros [Ht [[Hs0 _]|[_ Hok]]] Hs; [congruence|].
  pose proof (ball_top_bottom_ok _ (ball_move_walls_ok g Hok)) as Htb.
  pose proof (ball_move_walls_table g) as Htw.
  assert (Hsw : ball_state (ball_side_walls (ball_move g)) = 1).
  { destruct (ball_side_walls_rest g) as (_ & _ & _ & _ & -> & _). done. }
  assert (Hy : ball_y (ball_side_walls (ball_move g)) = ball_y g + ball_vy g).
  { rewrite ball_side_walls_y. destruct Hok as (_ & Hvy & _ & Hy).
    cbn -[u8]. apply u8_small. lia. }
  split; [done|]. unfold ball_top_bottom in *. rewrite Hy in *.
  unfold_consts.
  destruct (ball_y g + ball_vy g <? 8) eqn:Htop; tests_to_facts.
  - destruct Htb as (Hokm & Hsm & Htm). destruct (ball_paddle_ok _ Hokm) as [? Hsp].
    split; [lia|]. split; [congruence|]. split; [done|].
    eapply same_table_trans; [exact Htw|].
    eapply same_table_trans; [exact Htm|apply ball_paddle_table].
  - destruct (128 - 2 <=? ball_y g + ball_vy g) eqn:Hbot; tests_to_facts.
    + split; [done|lia].
    + destruct Htb as (Hokm & Hsm & Htm).
      destruct (ball_paddle_ok _ Hokm) as [? Hsp].
      split; [lia|]. split; [congruence|]. split; [done|].
      eapply same_table_trans; [exact Htw|].
      eapply same_table_trans; [exact Htm|apply ball_paddle_table].
Qed.

(** X13: a ball in flight leaves flight only through the bottom.  In a
    frame of a game that starts with the ball in flight, the ball rests on
    the paddle afterwards exactly when y + vy reaches SCREEN_HEIGHT - 2 =
    126, and that frame takes a life (8-bit decrement); in every other
    frame the ball stays in flight and the lives are as before. *)
Theorem ball_lost_only_at_bottom s pad :
  reachable s → ball_state s = 1 →
  (ball_state (frame pad s) = 0 ↔ SCREEN_HEIGHT - 2 ≤ ball_y s + ball_vy s)
  ∧ (ball_state (frame pad s) = 0 → lives (frame pad s) = u8 (lives s - 1))
  ∧ (ball_state (frame pad s) ≠ 0 →
     ball_state (frame pad s) = 1 ∧ lives (frame pad s) = lives s).
Proof.
  intros Hr Hs.
  destruct (before_ball_ball pad s) as (_ & Hy & _ & Hvy & Hst & Hlv).
  destruct (frame_ball pad s) as (_ & _ & _ & -> & ->).
  pose proof (before_ball_inv pad s Hr) as Hinv.
  assert (Hg : ball_state (before_ball pad s) = 1) by congruence.
  assert (Hne : ball_state (before_ball pad s) ≠ 0) by lia.
  destruct (flight_ok _ Hinv Hg) as [_ Hfl].
  pose proof (update_ball_active _ Hne) as Hu.
  rewrite Hy, Hvy in Hfl. rewrite <- Hlv.
  destruct (ball_top_bottom _) as [r|m].
  - destruct Hu as [-> _]. destruct Hfl as [-> Hge].
    destruct (ball_side_walls_rest (before_ball pad s)) as (Hwl & _).
    cbn -[u8]. cbn zeta in Hwl. rewrite Hwl.
    split; [done|]. split; [done|]. intros H. by destruct H.
  - destruct Hfl as (Hlt & Hsp & _ & (_ & Hlp & _)).
    destruct (ball_bricks_ball (ball_paddle m)) as (_ & _ & _ & Hsb & Hlb).
    assert (Hres : ball_state (update_ball (before_ball pad s)) = 1
                   ∧ lives (update_ball (before_ball pad s))
                     = lives (before_ball pad s)).
    { destruct (outside_brick_area (ball_paddle m)); destruct Hu as [-> _];
        split; congruence. }
    destruct Hres as [-> ->].
    split; [split; [discriminate|lia]|]. split; [discriminate|done].
Qed.

Lemma ball_lost_only_at_bottom_witness :
  ball_state (frame 0xFF (run (take 78 four_losses))) = 0
  ∧ lives (frame 0xFF (run (take 78 four_losses))) = 2.
Proof.
  assert (Hr : reachable (run (take 78 four_losses)))
    by (apply reachable_run, Forall_take; unfold four_losses; pad_bytes_run).
  assert (Hs : ball_state (run (take 78 four_losses)) = 1)
    by (vm_compute; reflexivity).
  destruct (ball_lost_only_at_bottom _ 0xFF Hr Hs) as ([_ H1] & H2 & _).
  assert (H0 : ball_state (frame 0xFF (run (take 78 four_losses))) = 0)
    by (apply H1; vm_compute; discriminate).
  split; [exact H0|].
  etransitivity; [exact (H2 H0)|]. vm_compute. reflexivity.
Defined.

(** X14: the score of a game is the number of destroyed bricks: score
    plus [bricks_left] is always 48, so the 16-bit score never wraps. *)
Theorem score_counts_destroyed s :
  reachable s →
  score s + bricks_left s = TOTAL_BRICKS
  ∧ 0 ≤ score s ≤ TOTAL_BRICKS
  ∧ score s = TOTAL_BRICKS - Z.of_nat (count_active (bricks s)).
Proof.
  intros [(Hlen & Hc & Hsum & _) _]%reachable_inv.
  pose proof (count_active_le (bricks s)) as Hle.
  unfold array_intact, counter_exact in *. rewrite Hlen in Hle.
  change TOTAL_BRICKS with 48 in *. lia.
Qed.

Lemma score_counts_destroyed_witness :
  score (run winning_run) = 48 ∧ bricks_left (run winning_run) = 0
  ∧ score (run winning_run) + bricks_left (run winning_run) = TOTAL_BRICKS.
Proof.
  assert (Hr : reachable (run winning_run))
    by (apply reachable_run; unfold winning_run; pad_bytes_run).
  destruct (score_counts_destroyed (run winning_run) Hr) as (Hsum & _).
  split; [vm_compute; reflexivity|]. split; [vm_compute; reflexivity|].
  exact Hsum.
Defined.

(** X15: nothing ends the game when the last brick is gone.  In a state
    whose counter is exact and zero, a frame leaves the bricks, the score
    and the counter as they are and the frame loop simply goes on; a game
    reaches such a state ([winning_run]) with score 48. *)
Theorem cleared_court_goes_on s pad :
  counter_exact s → bricks_left s = 0 →
  bricks (frame pad s) = bricks s
  ∧ score (frame pad s) = score s
  ∧ bricks_left (frame pad s) = 0
  ∧ counter_exact (frame pad s).
Proof.
  intros Hc H0.
  destruct (frame_fields pad s) as (Hfb & _ & Hfs & Hfl).
  unfold counter_exact. rewrite Hfb, Hfs, Hfl.
  pose proof (before_ball_bricks pad s) as Hb.
  destruct (update_ball_hit (before_ball pad s))
    as [Hsame|(m & i & b & Hsame & Hlk & Hact & _)].
  - destruct (same_bricks_trans _ _ _ Hb Hsame) as (-> & -> & ->).
    by repeat split.
  - destruct (same_bricks_trans _ _ _ Hb Hsame) as (Hbr & _).
    rewrite Hbr in Hlk.
    pose proof (count_active_deactivate _ _ _ Hlk Hact) as Hcnt.
    unfold counter_exact in Hc. lia.
Qed.

Lemma cleared_court_goes_on_witness :
  reachable (run winning_run)
  ∧ score (run winning_run) = 48
  ∧ bricks_left (frame 0xFF (run winning_run)) = 0
  ∧ score (frame 0xFF (run winning_run)) = 48.
Proof.
  assert (Hr : reachable (run winning_run))
    by (apply reachable_run; unfold winning_run; pad_bytes_run).
  assert (H0 : bricks_left (run winning_run) = 0) by (vm_compute; reflexivity).
  assert (H48 : score (run winning_run) = 48) by (vm_compute; reflexivity).
  destruct (cleared_court_goes_on (run winning_run) 0xFF
              (proj1 (reachable_counter _ Hr)) H0) as (_ & Hs & Hl & _).
  split; [exact Hr|]. split; [exact H48|]. split; [exact Hl|].
  etransitivity; [exact Hs|exact H48].
Defined.

(** X16: the top margin.  In a frame of a game in which the ball is in
    flight and y + vy falls below 8, the ball is put at y = 8 with vy
    turned downwards (+2) and stays in flight; lives, score and bricks
    are as before, since at y = 8 the frame returns at the brick
    pre-filter. *)
Theorem top_wall_reflects s pad :
  reachable s → ball_state s = 1 → ball_y s + ball_vy s < 8 →
  ball_y (frame pad s) = 8
  ∧ ball_vy (frame pad s) = - ball_vy s ∧ ball_vy (frame pad s) = 2
  ∧ ball_state (frame pad s) = 1
  ∧ lives (frame pad s) = lives s
  ∧ score (frame pad s) = score s
  ∧ bricks (frame pad s) = bricks s.
Proof.
  intros Hr Hs Hlow.
  destruct (before_ball_ball pad s) as (_ & Hy & _ & Hvy & Hst & Hlv).
  destruct (frame_ball pad s) as (_ & -> & _ & -> & ->).
  destruct (frame_fields pad s) as (-> & -> & -> & _).
  destruct (before_ball_bricks pad s) as (Hbr & _ & Hsc).
  destruct (before_ball_inv pad s Hr) as [_ [[Hs0 _]|[_ Hok]]]; [congruence|].
  rewrite <- Hy, <- Hvy, <- Hlv, <- Hsc, <- Hbr in *. rewrite <- Hst in Hs.
  clear Hy Hvy Hlv Hsc Hbr Hst Hr.
  destruct (before_ball pad s) as [fc px bx by_ vx vy st ib pi sc lv bl br].
  unfold ball_ok in Hok. cbn in *. destruct Hok as (Hvx & Hvy & Hx & Hy).
  subst st. destruct Hvy as [->| ->]; [lia|].
  assert (by_ = 8 ∨ by_ = 9) as [-> | ->] by lia;
    unfold update_ball, ball_flight, ball_on_paddle, ball_top_bottom,
      ball_side_walls, side_hit, ball_move; cbn;
    destruct (u8 (bx + vx) =? 0); [| destruct (_ <=? _) | | destruct (_ <=? _)];
    by cbn.
Qed.

Lemma top_wall_reflects_witness :
  (ball_y (run top_wall_run) = 9 ∧ ball_vy (run top_wall_run) = -2)
  ∧ ball_y (frame 0xFF (run top_wall_run)) = 8
  ∧ ball_vy (frame 0xFF (run top_wall_run)) = 2.
Proof.
  split; [split; vm_compute; reflexivity|].
  assert (Hr : reachable (run top_wall_run)).
  { apply reachable_run, Forall_app. split.
    - unfold prefilter_run. pad_bytes_run.
    - repeat constructor; lia. }
  assert (Hs : ball_state (run top_wall_run) = 1) by (vm_compute; reflexivity).
  assert (Hlow : ball_y (run top_wall_run) + ball_vy (run top_wall_run) < 8)
    by (vm_compute; reflexivity).
  destruct (top_wall_reflects _ 0xFF Hr Hs Hlow) as (H1 & _ & H3 & _).
  split; [exact H1|exact H3].
Defined.

(** X17: how far the pre-filter is an optimisation.  In every frame of a
    game the ball update with the pre-filter and the one that always
    scans give the same state, unless the ball is in flight with its y,
    after the paddle test, at 8 or 9: the filter's upper bound 58 never
    hides a collision, only its lower bound BRICK_START_Y can. *)
Theorem prefilter_extent s pad :
  reachable s →
  update_ball (before_ball pad s) = update_ball_scan_always (before_ball pad s)
  ∨ ∃ m, ball_flight (before_ball pad s) = Next m
         ∧ 8 ≤ ball_y (ball_paddle m) < BRICK_START_Y.
Proof.
  intros Hr. pose proof (before_ball_inv pad s Hr) as Hinv.
  destruct (before_ball_bricks pad s) as (Hbr & _).
  unfold update_ball, update_ball_scan_always.
  destruct (decide (ball_state (before_ball pad s) = 0)) as [H0|H0].
  { left. unfold ball_flight, ball_on_paddle.
    rewrite (proj2 (Z.eqb_eq _ _) H0). cbn -[held]. by destruct (_ && _). }
  assert (Hs : ball_state (before_ball pad s) = 1).
  { destruct Hinv as [_ [[? _]|[? _]]]; [done|done]. }
  destruct (flight_ok _ Hinv Hs) as [_ Hfl].
  assert (Hf : ball_flight (before_ball pad s)
               = ball_top_bottom (ball_side_walls (ball_move (before_ball pad s)))).
  { unfold ball_flight, ball_on_paddle.
    by rewrite (proj2 (Z.eqb_neq _ _) H0). }
  rewrite Hf.
  destruct (ball_top_bottom _) as [r|m]; cbn [and_then outcome]; [by left|].
  destruct Hfl as (_ & Hsp & Hok & ((Hpb & _) & _)).
  unfold ball_brick_area.
  destruct (outside_brick_area (ball_paddle m)) eqn:Ho;
    cbn [and_then outcome]; [|by left].
  unfold outside_brick_area in Ho. unfold_consts.
  apply orb_true_iff in Ho as [Ho|Ho]; tests_to_facts.
  { right. exists m. split; [done|]. destruct Hok as (_ & _ & _ & Hy). lia. }
  left.
  assert (Hlen : array_intact (ball_paddle m)).
  { unfold array_intact. rewrite Hpb, Hbr.
    apply (reachable_counter s Hr). }
  destruct (ball_bricks_spec _ Hlen) as [[-> _]|(i & b & (Hlk & Hcol & _) & _)];
    [done|].
  rewrite Hpb, Hbr in Hlk.
  destruct (reachable_grid s i b Hr Hlk) as (Hi & _ & Hby & _).
  destruct Hcol as (_ & _ & Hyo & _). rewrite Hby in Hyo.
  unfold grid_brick in Hyo. cbn in Hyo. unfold_consts.
  unfold BRICK_COLS in Hyo. Z.div_mod_to_equations. lia.
Qed.

Lemma prefilter_extent_witness :
  update_ball (before_ball 0xFF (run seam_run))
  = update_ball_scan_always (before_ball 0xFF (run seam_run))
  ∧ ∃ m, ball_flight under_top_row = Next m
         ∧ 8 ≤ ball_y (ball_paddle m) < BRICK_START_Y.
Proof.
  split; [vm_compute; reflexivity|].
  assert (Hr : reachable (run prefilter_run))
    by (apply reachable_run; unfold prefilter_run; pad_bytes_run).
  destruct (prefilter_extent (run prefilter_run) 0xFF Hr) as [Heq|Hm].
  - exfalso.
    assert (H9 : bricks_left (update_ball (before_ball 0xFF (run prefilter_run)))
                 = 9) by (vm_compute; reflexivity).
    assert (H8 : bricks_left (update_ball_scan_always
                                (before_ball 0xFF (run prefilter_run))) = 8)
      by (vm_compute; reflexivity).
    rewrite Heq, H8 in H9. clear Heq. lia.
  - exact Hm.
Defined.

(** ** Drawing *)

Lemma draw_hud_loop_lookup s fuel : ∀ i x_pos k,
  0 ≤ i → i + Z.of_nat k < lives s → lives s ≤ 256 → (k < fuel)%nat →
  0 ≤ x_pos < 256 →
  draw_hud_loop fuel i x_pos s !! k
  = Some (mkRect (u8 (x_pos + 5 * Z.of_nat k)) 2 3 3 125).
Proof.
  induction fuel as [|fuel IH]; intros i x_pos k Hi Hk Hl Hf Hx; [lia|].
  cbn [draw_hud_loop].
  rewrite (proj2 (Z.ltb_lt i (lives s))) by lia.
  destruct k as [|k].
  - cbn. by rewrite Z.add_0_r, u8_small.
  - rewrite lookup_cons. rewrite (u8_small (i + 1)) by lia.
    rewrite IH; [|lia|lia|lia|lia|apply u8_range].
    f_equal. f_equal. unfold u8.
    rewrite Z.add_mod_idemp_l by lia. f_equal. lia.
Qed.

(** X18: [draw_hud] draws one 3×3 rectangle per life, the k-th at
    x = (2 + 5k) mod 256 and y = 2, in the colour HUE_RED | SAT_FULL | 5 =
    125; up to 51 lives the x positions 2, 7, 12, ... do not wrap, from
    the 52nd rectangle on they start again at the left. *)
Theorem draw_hud_rectangles s k :
  0 ≤ lives s < 256 → (k < Z.to_nat (lives s))%nat →
  draw_hud s !! k = Some (mkRect (u8 (2 + 5 * Z.of_nat k)) 2 3 3 125)
  ∧ ((k ≤ 50)%nat → u8 (2 + 5 * Z.of_nat k) = 2 + 5 * Z.of_nat k)
  ∧ length (draw_hud s) = Z.to_nat (lives s).
Proof.
  intros Hl Hk. split; [|split].
  - unfold draw_hud. apply draw_hud_loop_lookup; lia.
  - intros Hk'. apply u8_small. lia.
  - by apply draw_hud_length.
Qed.

Lemma draw_hud_rectangles_witness :
  draw_hud start !! 2%nat = Some (mkRect 12 2 3 3 125)
  ∧ draw_hud (set_lives 255 start) !! 52%nat = Some (mkRect 6 2 3 3 125).
Proof.
  assert (Hl : 0 ≤ lives start < 256) by (rewrite start_value; cbn; lia).
  assert (Hk : (2 < Z.to_nat (lives start))%nat)
    by (rewrite start_value; cbn; lia).
  assert (Hl' : 0 ≤ lives (set_lives 255 start) < 256) by (cbn; lia).
  assert (Hk' : (52 < Z.to_nat (lives (set_lives 255 start)))%nat)
    by (cbn; lia).
  destruct (draw_hud_rectangles start 2 Hl Hk) as (H & _).
  destruct (draw_hud_rectangles (set_lives 255 start) 52 Hl' Hk') as (H' & _).
  split.
  - etransitivity; [exact H|]. reflexivity.
  - etransitivity; [exact H'|]. reflexivity.
Defined.

(** X19: the colour table.  The six row indices get six different
    colours, every other index gets the colour of row 6 (blue), and every
    result is a byte with full saturation and brightness 4. *)
Theorem get_brick_color_table :
  (∀ r r', 1 ≤ r ≤ 6 → 1 ≤ r' ≤ 6 →
     get_brick_color r = get_brick_color r' → r = r')
  ∧ (∀ c, ¬ 1 ≤ c ≤ 6 → get_brick_color c = get_brick_color 6)
  ∧ (∀ c, 0 ≤ get_brick_color c < 256
          ∧ Z.land (get_brick_color c) 0x1F = Z.lor SAT_FULL 4).
Proof.
  split; [|split].
  - intros r r' Hr Hr'.
    assert (r = 1 ∨ r = 2 ∨ r = 3 ∨ r = 4 ∨ r = 5 ∨ r = 6) as Hc by lia.
    assert (r' = 1 ∨ r' = 2 ∨ r' = 3 ∨ r' = 4 ∨ r' = 5 ∨ r' = 6) as Hc' by lia.
    destruct Hc as [->|[->|[->|[->|[->| ->]]]]];
      destruct Hc' as [->|[->|[->|[->|[->| ->]]]]];
      vm_compute; intros H; first [reflexivity | discriminate H].
  - intros c Hc. unfold get_brick_color.
    split_tests; tests_to_facts; try lia; reflexivity.
  - intros c. unfold get_brick_color.
    split_tests; vm_compute; repeat split; intros H; discriminate H.
Qed.

Lemma get_brick_color_table_witness :
  get_brick_color 0 = get_brick_color 6
  ∧ get_brick_color 1 ≠ get_brick_color 2.
Proof.
  split.
  - apply (proj1 (proj2 get_brick_color_table) 0). lia.
  - intros H.
    pose proof (proj1 get_brick_color_table 1 2 ltac:(lia) ltac:(lia) H).
    lia.
Defined.

Lemma draw_bricks_loop_filter s fuel : ∀ idx,
  (idx + fuel ≤ length (bricks s))%nat →
  draw_bricks_loop fuel idx s
  = brick_rect <$> filter (λ b, Brick.active b ≠ 0)
                          (take fuel (drop idx (bricks s))).
Proof.
  induction fuel as [|fuel IH]; intros idx Hlen; [done|].
  cbn [draw_bricks_loop].
  destruct (lookup_lt_is_Some_2 (bricks s) idx) as [b Hb]; [lia|].
  rewrite Hb, (drop_S _ _ _ Hb). cbn [take]. rewrite filter_cons.
  rewrite IH by lia.
  destruct (Z.eqb_spec (Brick.active b) 0) as [He|He]; by case_decide.
Qed.

(** X20: [draw_bricks] draws exactly the active bricks, in array order,
    each as a BRICK_WIDTH × BRICK_HEIGHT rectangle at the brick's position
    in its row colour; destroyed bricks are skipped.  In a game the number
    of rectangles is [bricks_left]. *)
Theorem draw_bricks_active :
  (∀ s, array_intact s →
     draw_bricks s = brick_rect <$> filter (λ b, Brick.active b ≠ 0) (bricks s))
  ∧ (∀ s, reachable s → Z.of_nat (length (draw_bricks s)) = bricks_left s).
Proof.
  assert (H : ∀ s, array_intact s →
     draw_bricks s = brick_rect <$> filter (λ b, Brick.active b ≠ 0) (bricks s)).
  { intros s Hlen. unfold draw_bricks, array_intact in *.
    rewrite draw_bricks_loop_filter by lia.
    by rewrite drop_0, <- Hlen, firstn_all. }
  split; [exact H|].
  intros s [Hc Hlen]%reachable_counter.
  rewrite (H s Hlen), length_fmap. by rewrite Hc.
Qed.

Lemma draw_bricks_active_witness :
  length (draw_bricks (run low_ball)) = 47%nat
  ∧ last (draw_bricks (run low_ball)) = Some (mkRect 100 45 15 6 220).
Proof.
  assert (Hr : reachable (run low_ball))
    by (apply reachable_run; unfold low_ball; pad_bytes_run).
  pose proof (proj2 draw_bricks_active _ Hr) as Hn.
  assert (Hl : bricks_left (run low_ball) = 47) by (vm_compute; reflexivity).
  rewrite Hl in Hn. split; [lia|].
  rewrite (proj1 draw_bricks_active (run low_ball)
             (proj2 (reachable_counter _ Hr))).
  vm_compute. reflexivity.
Defined.



(** ** The video flags and the frame counter *)

Lemma video_after_two n :
  video_after (2 * n) = page_one ∧ video_after (S (2 * n)) = page_two.
Proof.
  induction n as [|n [IH0 IH1]]; [by split|].
  replace (2 * S n)%nat with (S (S (2 * n))) by lia.
  assert (H0 : video_after (S (S (2 * n))) = page_one).
  { cbn [video_after] in *. by rewrite IH1. }
  split; [done|]. cbn [video_after] in *. by rewrite H0.
Qed.

(** X22: double buffering.  After the flag set-up of [main] and any
    number of rounds of the frame loop the video flags are in one of two
    settings that alternate from round to round: the bank bit VRAMBANK2
    and the page bit VID_OUT_PAGE2 are always opposite, all other flags
    (DMA_ENABLE, NOTILE, BLIT_IRQ, CLIP_X, CLIP_Y) keep their set-up
    values, and after the swap both registers equal their mirrors. *)
Theorem double_buffering n :
  video_after n = (if Nat.even n then page_one else page_two)
  ∧ Z.testbit (bank_mirror (video_after n)) 3
    = negb (Z.testbit (dma_mirror (video_after n)) 1)
  ∧ Z.land (bank_mirror (video_after n)) (Z.lnot VRAMBANK2) = Z.lor CLIP_X CLIP_Y
  ∧ Z.land (dma_mirror (video_after n)) (Z.lnot VID_OUT_PAGE2)
    = Z.lor (Z.lor DMA_ENABLE NOTILE) BLIT_IRQ
  ∧ BANK_FLAGS (video_after n) = bank_mirror (video_after n)
  ∧ DMA_FLAGS (video_after n) = dma_mirror (video_after n)
  ∧ video_after (S (S n)) = video_after n.
Proof.
  assert (Hn : ∃ k, n = (2 * k)%nat ∨ n = S (2 * k)).
  { exists (n / 2)%nat. pose proof (Nat.div_mod_eq n 2).
    pose proof (Nat.mod_upper_bound n 2). lia. }
  destruct Hn as [k [-> | ->]].
  - destruct (video_after_two k) as [H0 _].
    destruct (video_after_two (S k)) as [H2 _].
    replace (S (S (2 * k))) with (2 * S k)%nat by lia.
    rewrite H0, H2. replace (Nat.even (2 * k)) with true; [by repeat split|].
    symmetry. apply Nat.even_spec. by exists k.
  - destruct (video_after_two k) as [_ H1].
    destruct (video_after_two (S k)) as [_ H3].
    replace (S (S (S (2 * k)))) with (S (2 * S k)) by lia.
    rewrite H1, H3. replace (Nat.even (S (2 * k))) with false; [by repeat split|].
    symmetry. rewrite Nat.even_succ. apply not_true_is_false.
    rewrite Nat.odd_spec. intros [m Hm]. lia.
Qed.

Lemma frame_count_step pad s :
  frame_count (frame pad s) = u8 (frame_count s + 1).
Proof.
  unfold frame, update_game. cbn -[u8]. f_equal. f_equal.
  destruct (update_ball_controls (update_paddle (read_input pad s)))
    as (_ & _ & _ & ->).
  by rewrite update_paddle_only_paddle.
Qed.

(** X23: [frame_count] counts the frames of a game modulo 256. *)
Theorem frame_count_wraps pads :
  frame_count (run pads) = Z.of_nat (length pads) mod 256.
Proof.
  rewrite run_from_start.
  assert (H : ∀ s, frame_count (run_from s pads)
                   = (frame_count s + Z.of_nat (length pads)) mod 256
                     ∨ (pads = [] ∧ run_from s pads = s)).
  { induction pads as [|pad pads IH]; intros s; [by right|]. left.
    change (run_from s (pad :: pads)) with (run_from (frame pad s) pads).
    destruct (IH (frame pad s)) as [->|[-> ->]];
      rewrite frame_count_step; unfold u8; cbn [length].
    - rewrite Z.add_mod_idemp_l by lia. f_equal. lia.
    - f_equal. }
  destruct (H start) as [->|[-> ->]]; [|reflexivity].
  by rewrite start_value.
Qed.

(** ** The resting ball *)

Lemma flight_frame_cases g :
  play_inv g → ball_state g = 1 →
  update_ball g = ball_lost (ball_side_walls (ball_move g))
  ∨ ball_state (update_ball g) = 1.
Proof.
  intros Hinv Hs. assert (Hne : ball_state g ≠ 0) by lia.
  destruct (flight_ok _ Hinv Hs) as [_ Hfl].
  pose proof (update_ball_active _ Hne) as Hu.
  destruct (ball_top_bottom _) as [r|m].
  - left. destruct Hu as [-> _]. by destruct Hfl.
  - right. destruct Hfl as (_ & Hsp & _).
    destruct (ball_bricks_ball (ball_paddle m)) as (_ & _ & _ & Hsb & _).
    destruct (outside_brick_area (ball_paddle m)); destruct Hu as [-> _];
      congruence.
Qed.

(** X24: in every state of a game a ball that rests on the paddle has
    velocity zero and sits at y = PADDLE_Y - BALL_SIZE - 1 = 111, on an
    even column between 10 and 112. *)
Theorem resting_ball_is_still s :
  reachable s → ball_state s = 0 →
  ball_vx s = 0 ∧ ball_vy s = 0
  ∧ ball_y s = PADDLE_Y - BALL_SIZE - 1
  ∧ 10 ≤ ball_x s ≤ 112 ∧ ball_x s mod 2 = 0.
Proof.
  unfold_consts. induction 1 as [|pad s Hpad Hr IH]; intros Hs.
  { rewrite start_value. cbn. repeat split; lia. }
  destruct (frame_ball pad s) as (Hfx & Hfy & Hfvx & Hfs & _).
  assert (Hfvy : ball_vy (frame pad s) = ball_vy (update_ball (before_ball pad s)))
    by reflexivity.
  rewrite Hfx, Hfy, Hfvx, Hfvy. rewrite Hfs in Hs.
  destruct (before_ball_ball pad s) as (_ & Hby & Hbvx & Hbvy & Hbs & _).
  pose proof (before_ball_inv pad s Hr) as Hinv.
  destruct (decide (ball_state s = 0)) as [H0|H0].
  - destruct (IH H0) as (Hvx & Hvy & Hy & _).
    pose proof Hinv as [(_ & _ & _ & _ & [Hpb Hpe]) _].
    rewrite update_ball_resting in * by congruence.
    cbn -[held u8] in *.
    destruct (_ && _); cbn -[u8] in *; [discriminate|].
    unfold_consts. change ((24 - 3) ÷ 2) with 10.
    rewrite u8_small by lia. rewrite Hbvx, Hbvy, Hby.
    repeat split; try done; try lia. parity.
  - assert (Hg : ball_state (before_ball pad s) = 1).
    { destruct Hinv as [_ [[? _]|[? _]]]; [congruence|done]. }
    destruct (flight_frame_cases _ Hinv Hg) as [->|H1]; [|congruence].
    vm_compute. repeat split; first [reflexivity | intros H; discriminate H].
Qed.

Lemma resting_ball_is_still_witness :
  ball_state (run four_losses) = 1
  ∧ ball_vx (frame 0xFF (run four_losses)) = 0
  ∧ ball_vy (frame 0xFF (run four_losses)) = 0.
Proof.
  split; [vm_compute; reflexivity|].
  assert (Hr : reachable (frame 0xFF (run four_losses))).
  { apply reach_frame; [lia|]. apply reachable_run.
    unfold four_losses. pad_bytes_run. }
  assert (Hs : ball_state (frame 0xFF (run four_losses)) = 0)
    by (vm_compute; reflexivity).
  destruct (resting_ball_is_still _ Hr Hs) as (Hvx & Hvy & _).
  split; [exact Hvx|exact Hvy].
Defined.
